(** * libovsdb: the condition-and-mapping core

    A shallow embedding of three pieces of the client library:

    - [mapper/info.go]: [MapperInfo], the bridge between a tagged Go struct
      and a table schema ([FieldByColumn], [hasColumn], [SetField],
      [getValidIndexes], [NewMapperInfo]);
    - [ovsdb/mutation.go]: [Mutation] and its JSON (un)marshalling;
    - [client/condition.go]: the condition factories ([indexCondFactory],
      [predicateCondFactory], [errorConditionFactory]).

    Go code that returns [(value, error)] is embedded as a function into a
    result type that also records a run-time panic, since the reflection
    calls the mapper performs can panic.  The memory a row pointer refers to
    is passed explicitly ([mapper.store]).

    The helpers these files call without defining them enter as parameters:
    the schema of package [ovsdb] as the class [ovsdb.Schema], the methods of
    the orm as the record [client.orm], the conversions between number
    literals and [float64] that [encoding/json] takes from package [strconv]
    as the class [strconv.Strconv].  A definition that is modelled from the
    spec instead says so in its comment. *)

From Stdlib Require Import ZArith Bool List PrimFloat SpecFloat FloatOps.
From stdpp Require Import base option list strings gmap fin_maps.

Set Warnings "-register-all".

Local Open Scope string_scope.
Local Open Scope list_scope.

(** ** Outcomes of a Go call *)

(** A call either returns normally with a value, returns a non-nil [error],
    or panics. *)
Inductive outcome (E A : Type) : Type :=
| Ok (a : A)
| Err (e : E)
| Panic (msg : string).
Arguments Ok {E A} a.
Arguments Err {E A} e.
Arguments Panic {E A} msg.

Definition obind {E A B} (x : outcome E A) (k : A -> outcome E B) : outcome E B :=
  match x with
  | Ok a => k a
  | Err e => Err e
  | Panic m => Panic m
  end.

#[global] Instance outcome_ret {E} : MRet (outcome E) := fun A => @Ok E A.
#[global] Instance outcome_bind {E} : MBind (outcome E) :=
  fun A B k x => obind x k.

(** ** The part of package [reflect] the mapper relies on *)

Module reflect.

(** Go types.  [Named] is a defined type ([type T U]); the predeclared
    [bool], [int], [float64] and [string] are named types as well.
    [Interface] is the empty interface.  A struct tag is kept in parsed
    form, as the list of its [key:"value"] pairs. *)
Inductive Type_ : Type :=
| Bool
| Int
| Float64
| String
| Slice (elem : Type_)
| Map (key elem : Type_)
| Ptr (elem : Type_)
| Interface
| Struct (fields : list StructField)
| Named (name : string) (underlying : Type_)
with StructField : Type :=
| mkStructField (Name : string) (Type' : Type_) (Tag : list (string * string)).

Definition Name (f : StructField) : string := let 'mkStructField n _ _ := f in n.
Definition FieldType (f : StructField) : Type_ := let 'mkStructField _ t _ := f in t.
Definition Tag (f : StructField) : list (string * string) :=
  let 'mkStructField _ _ t := f in t.

(** [StructTag.Get]: the value of the first pair with that key, or the empty
    string. *)
Fixpoint Get (tag : list (string * string)) (key : string) : string :=
  match tag with
  | [] => ""
  | (k, v) :: rest => if String.eqb k key then v else Get rest key
  end.

Inductive Kind := KInvalid | KBool | KInt | KFloat64 | KString | KSlice | KMap
                | KPtr | KInterface | KStruct.

Definition Kind_eqb (a b : Kind) : bool :=
  match a, b with
  | KInvalid, KInvalid | KBool, KBool | KInt, KInt | KFloat64, KFloat64
  | KString, KString | KSlice, KSlice | KMap, KMap | KPtr, KPtr
  | KInterface, KInterface | KStruct, KStruct => true
  | _, _ => false
  end.

Fixpoint underlying (t : Type_) : Type_ :=
  match t with
  | Named _ u => underlying u
  | _ => t
  end.

Definition kind (t : Type_) : Kind :=
  match underlying t with
  | Bool => KBool
  | Int => KInt
  | Float64 => KFloat64
  | String => KString
  | Slice _ => KSlice
  | Map _ _ => KMap
  | Ptr _ => KPtr
  | Interface => KInterface
  | Struct _ => KStruct
  | Named _ _ => KInvalid
  end.

Definition hasName (t : Type_) : bool :=
  match t with
  | Bool | Int | Float64 | String | Named _ _ => true
  | _ => false
  end.

(** Identity of types ([==] on [reflect.Type]). *)
Fixpoint Type_eqb (a b : Type_) {struct a} : bool :=
  match a, b with
  | Bool, Bool | Int, Int | Float64, Float64 | String, String
  | Interface, Interface => true
  | Slice x, Slice y => Type_eqb x y
  | Map k x, Map l y => Type_eqb k l && Type_eqb x y
  | Ptr x, Ptr y => Type_eqb x y
  | Named n x, Named m y => String.eqb n m && Type_eqb x y
  | Struct fs, Struct gs =>
      (fix fields_eqb (fs gs : list StructField) {struct fs} : bool :=
         match fs, gs with
         | [], [] => true
         | mkStructField n t tg :: fs', mkStructField m u ug :: gs' =>
             String.eqb n m && Type_eqb t u
             && bool_decide (tg = ug) && fields_eqb fs' gs'
         | _, _ => false
         end) fs gs
  | _, _ => false
  end.

(** Induction over types that also covers the field types of a struct. *)
Fixpoint Type_rect' (P : Type_ -> Prop)
    (HBool : P Bool) (HInt : P Int) (HFloat : P Float64) (HString : P String)
    (HSlice : forall e, P e -> P (Slice e))
    (HMap : forall k e, P k -> P e -> P (Map k e))
    (HPtr : forall e, P e -> P (Ptr e))
    (HIface : P Interface)
    (HStruct : forall fs, Forall (fun f => P (FieldType f)) fs -> P (Struct fs))
    (HNamed : forall n u, P u -> P (Named n u))
    (t : Type_) {struct t} : P t :=
  let rec := Type_rect' P HBool HInt HFloat HString HSlice HMap HPtr HIface HStruct HNamed in
  match t with
  | Bool => HBool
  | Int => HInt
  | Float64 => HFloat
  | String => HString
  | Slice e => HSlice e (rec e)
  | Map k e => HMap k e (rec k) (rec e)
  | Ptr e => HPtr e (rec e)
  | Interface => HIface
  | Struct fs =>
      HStruct fs
        ((fix go (l : list StructField) : Forall (fun f => P (FieldType f)) l :=
            match l with
            | [] => List.Forall_nil _
            | f :: l' =>
                @List.Forall_cons _ _ f l'
                  (match f return P (FieldType f) with
                   | mkStructField _ ft _ => rec ft
                   end)
                  (go l')
            end) fs)
  | Named n u => HNamed n u (rec u)
  end.

(** [directlyAssignable(T, V)]: a value of type [V] can be stored in a [T]
    without conversion (channels are not modelled). *)
Definition directlyAssignable (T V : Type_) : bool :=
  if Type_eqb T V then true
  else if (hasName T && hasName V) || negb (Kind_eqb (kind T) (kind V)) then false
  else Type_eqb (underlying T) (underlying V).

(** [implements(T, V)]: [T] is an interface that [V] implements; the only
    interface modelled has no methods. *)
Definition implements (T V : Type_) : bool := Kind_eqb (kind T) KInterface.

(** [t.AssignableTo(u)]. *)
Definition AssignableTo (t u : Type_) : bool :=
  directlyAssignable u t || implements u t.

(** The contents of a memory cell of a given static type.  A slice or map
    cell is [None] when nil; a cell of interface type holds a boxed value
    or nil. *)
Inductive Data : Type :=
| DBool (b : bool)
| DInt (n : Z)
| DFloat64 (f : float)
| DString (s : string)
| DSlice (elems : option (list Data))
| DMap (entries : option (list (Data * Data)))
| DPtr (addr : Z)
| DStruct (fieldvals : list Data)
| DIface (boxed : option (Type_ * Data)).

(** A value of type [interface{}]: nil, or a dynamic type with its data. *)
Definition iface : Type := option (Type_ * Data).

(** [reflect.TypeOf]: nil for the nil interface. *)
Definition TypeOf (v : iface) : option Type_ := fst <$> v.

Fixpoint Zero (t : Type_) : Data :=
  match t with
  | Bool => DBool false
  | Int => DInt 0
  | Float64 => DFloat64 0%float
  | String => DString ""
  | Slice _ => DSlice None
  | Map _ _ => DMap None
  | Ptr _ => DPtr 0
  | Interface => DIface None
  | Struct fs => DStruct (map (fun f => let 'mkStructField _ ft _ := f in Zero ft) fs)
  | Named _ u => Zero u
  end.

(** Go exports an identifier that starts with an upper-case letter (only
    the ASCII letters are recognised here). *)
Definition exported (name : string) : bool :=
  match name with
  | EmptyString => false
  | String.String c _ =>
      let n := Ascii.nat_of_ascii c in (65 <=? n)%nat && (n <=? 90)%nat
  end.

End reflect.

(** ** The part of package [ovsdb] the mapper relies on *)

Module ovsdb.

(** The schema types and helpers of package [ovsdb] that [mapper/info.go]
    calls.  Their code is not part of the sources at hand, so the mapper is
    stated over any implementation of this interface:
    - [Column t c] is [t.Column(c)], [None] standing for a nil result;
    - [Indexes t] is the field [t.Indexes];
    - [NativeType c] is [ovsdb.NativeType(c)];
    - [IsDefaultValue c v] is [ovsdb.IsDefaultValue(c, v)]. *)
Class Schema : Type := {
  TableSchema : Type;
  ColumnSchema : Type;
  Column : TableSchema -> string -> option ColumnSchema;
  Indexes : TableSchema -> list (list string);
  NativeType : ColumnSchema -> reflect.Type_;
  IsDefaultValue : ColumnSchema -> reflect.iface -> bool
}.

End ovsdb.

(** ** [mapper/info.go] *)

Module mapper.
Import reflect ovsdb.

(** The [reason] of an [ErrMapper]: either the literal
    ["Column does not exist in schema"], or ["Wrong type, column expects %s"]
    formatted with the expected type. *)
Inductive Reason :=
| ColumnDoesNotExist
| WrongTypeExpects (expType : Type_).

(** The errors [info.go] builds.  Where the Go code renders a type or a value
    into the text of the error ([%v], [Type.String()]), the error keeps the
    type or value itself. *)
Inductive error :=
| Errorf (msg : string)
| ErrNotAssignable (column : string) (value : iface) (fieldName : string)
    (fieldType : Type_)
| ErrWrongType (inFunc expected : string) (got : iface)
| ErrMapper (objType : Type_) (field : string) (fieldType : Type_)
    (fieldTag : string) (reason : Reason).

(** Memory: the cell of field [f] of the struct allocated at address [a].
    A cell that was never written holds the zero value of the field's type. *)
Definition store : Type := gmap (Z * string) Data.

Definition load (st : store) (a : Z) (f : StructField) : Data :=
  default (Zero (FieldType f)) (st !! (a, Name f)).

Section Mapper.
Context `{Schema}.

(** MapperInfo is a struct that handles the type map of an object. *)
Record MapperInfo := {
  fields : gmap string string;   (* FieldName indexed by column *)
  obj : iface;
  table : TableSchema
}.

Definition pointerOf (d : Data) : Z :=
  match d with DPtr a => a | _ => 0%Z end.

Definition FieldByName (fs : list StructField) (name : string) : option StructField :=
  List.find (fun f => String.eqb (Name f) name) fs.

(** [reflect.ValueOf(o).Elem().FieldByName(fieldName)]: the address of the
    struct and the descriptor of the field, [None] being the zero [Value]
    that [FieldByName] returns when the struct has no such field. *)
Definition elemFieldByName (o : iface) (fieldName : string)
  : outcome error (option (Z * StructField)) :=
  match o with
  | None => Panic "reflect: call of reflect.Value.Elem on zero Value"
  | Some (t, d) =>
      match underlying t with
      | Ptr e =>
          if (pointerOf d =? 0)%Z
          then Panic "reflect: call of reflect.Value.FieldByName on zero Value"
          else match underlying e with
               | Struct fs => Ok (pair (pointerOf d) <$> FieldByName fs fieldName)
               | _ => Panic "reflect: call of reflect.Value.FieldByName on non-struct Value"
               end
      | _ => Panic "reflect: call of reflect.Value.Elem on non-pointer Value"
      end
  end.

(** What a cell of static type [t] yields as an [interface{}]. *)
Definition box (t : Type_) (d : Data) : iface :=
  if Kind_eqb (kind t) KInterface
  then match d with DIface i => i | _ => None end
  else Some (t, d).

(** [Value.Interface()] on a struct field. *)
Definition Interface (st : store) (fv : option (Z * StructField)) : outcome error iface :=
  match fv with
  | None => Panic "reflect: call of reflect.Value.Interface on zero Value"
  | Some (a, f) =>
      if negb (exported (Name f))
      then Panic "reflect.Value.Interface: cannot return value obtained from unexported field or method"
      else Ok (box (FieldType f) (load st a f))
  end.

(** FieldByColumn returns the field value that corresponds to a column. *)
Definition FieldByColumn (mi : MapperInfo) (st : store) (column : string)
  : outcome error iface :=
  match fields mi !! column with
  | None => Err (Errorf ("column " ++ column ++ " not found in orm info"))
  | Some fieldName =>
      fv ← elemFieldByName (obj mi) fieldName;
      Interface st fv
  end.

Definition hasColumn (mi : MapperInfo) (column : string) : bool :=
  match fields mi !! column with
  | Some _ => true
  | None => false
  end.

(** [fieldValue.Set(reflect.ValueOf(value))]. *)
Definition Set_ (st : store) (a : Z) (f : StructField) (value : iface)
  : outcome error unit * store :=
  if negb (exported (Name f))
  then (Panic "reflect: reflect.Value.Set using value obtained using unexported field", st)
  else match value with
       | None => (Panic "reflect: call of reflect.Value.Set on zero Value", st)
       | Some (vt, d) =>
           if directlyAssignable (FieldType f) vt
           then (Ok tt, <[(a, Name f) := d]> st)
           else if implements (FieldType f) vt
           then (Ok tt, <[(a, Name f) := DIface (Some (vt, d))]> st)
           else (Panic "reflect.Set: value is not assignable to type", st)
       end.

(** SetField sets the field in the column to the specified value.  The
    second component is the memory after the call. *)
Definition SetField (mi : MapperInfo) (st : store) (column : string) (value : iface)
  : outcome error unit * store :=
  match fields mi !! column with
  | None => (Err (Errorf ("column " ++ column ++ " not found in orm info")), st)
  | Some fieldName =>
      match elemFieldByName (obj mi) fieldName with
      | Panic m => (Panic m, st)
      | Err e => (Err e, st)
      | Ok None => (Panic "reflect: call of reflect.Value.Type on zero Value", st)
      | Ok (Some (a, f)) =>
          match TypeOf value with
          | None => (Panic "reflect: nil type passed to Type.AssignableTo", st)
          | Some vt =>
              if negb (AssignableTo (FieldType f) vt)
              then (Err (ErrNotAssignable column value fieldName (FieldType f)), st)
              else Set_ st a f value
          end
      end
  end.

(** The inner loop of [getValidIndexes] over the columns of one index:
    [Ok false] stands for [continue OUTER], [Ok true] for reaching the end
    of the index. *)
Fixpoint indexColumns (mi : MapperInfo) (st : store) (idx : list string)
  : outcome error bool :=
  match idx with
  | [] => Ok true
  | col :: rest =>
      if negb (hasColumn mi col) then Ok false
      else match Column (table mi) col with
           | None => Ok false
           | Some columnSchema =>
               field ← FieldByColumn mi st col;
               if negb (bool_decide (is_Some field)) || IsDefaultValue columnSchema field
               then Ok false
               else indexColumns mi st rest
           end
  end.

(** The outer loop, threading [validIndexes]. *)
Fixpoint indexLoop (mi : MapperInfo) (st : store)
    (possibleIndexes validIndexes : list (list string))
  : outcome error (list (list string)) :=
  match possibleIndexes with
  | [] => Ok validIndexes
  | idx :: rest =>
      ok ← indexColumns mi st idx;
      indexLoop mi st rest (if ok : bool then validIndexes ++ [idx] else validIndexes)
  end.

(** getValidIndexes inspects the object and returns the list of indexes
    (sets of columns) for which the object has non-default values. *)
Definition getValidIndexes (mi : MapperInfo) (st : store)
  : outcome error (list (list string)) :=
  let possibleIndexes := [ ["_uuid"] ] ++ Indexes (table mi) in
  indexLoop mi st possibleIndexes [].

(** The loop of [NewMapperInfo] over the fields of the struct type. *)
Fixpoint mapFields (tbl : TableSchema) (objType : Type_) (fs : list StructField)
    (acc : gmap string string) : outcome error (gmap string string) :=
  match fs with
  | [] => Ok acc
  | field :: rest =>
      let colName := Get (Tag field) "ovs" in
      if String.eqb colName "" then mapFields tbl objType rest acc
      else match Column tbl colName with
           | None =>
               Err (ErrMapper objType (Name field) (FieldType field) colName
                      ColumnDoesNotExist)
           | Some column =>
               let expType := NativeType column in
               if negb (Type_eqb expType (FieldType field))
               then Err (ErrMapper objType (Name field) (FieldType field) colName
                           (WrongTypeExpects expType))
               else mapFields tbl objType rest (<[colName := Name field]> acc)
           end
  end.

(** NewMapperInfo creates a MapperInfo structure around an object based on
    a given table schema. *)
Definition NewMapperInfo (tbl : TableSchema) (o : iface) : outcome error MapperInfo :=
  match o with
  | None => Panic "reflect: call of reflect.Value.Type on zero Value"
  | Some (t, d) =>
      match underlying t with
      | Ptr e =>
          (* reflect.Indirect: the zero Value for a nil pointer *)
          if (pointerOf d =? 0)%Z
          then Err (ErrWrongType "NewMapperInfo" "pminter to a struct" o)
          else match underlying e with
               | Struct fs =>
                   flds ← mapFields tbl e fs ∅;
                   Ok {| fields := flds; obj := o; table := tbl |}
               | _ => Err (ErrWrongType "NewMapperInfo" "pminter to a struct" o)
               end
      | _ => Err (ErrWrongType "NewMapperInfo" "pminter to a struct" o)
      end
  end.

(** *** Vocabulary of the statements about the mapper *)

(** The column a field is tagged with, the empty string when it has no
    [ovs] tag. *)
Definition ovsColumn (f : StructField) : string := Get (Tag f) "ovs".

(** The fields of the struct that a pointer value points to. *)
Definition structFields (o : iface) : list StructField :=
  match o with
  | Some (t, _) =>
      match underlying t with
      | Ptr e => match underlying e with Struct fs => fs | _ => [] end
      | _ => []
      end
  | None => []
  end.

(** A field agrees with the schema: it is untagged, or its column exists
    and has the field's type as native type. *)
Definition fieldMatches (tbl : TableSchema) (f : StructField) : Prop :=
  ovsColumn f = ""
  \/ exists c, Column tbl (ovsColumn f) = Some c /\ NativeType c = FieldType f.

(** The column-to-field mapping of the tagged fields, a later field
    replacing an earlier one with the same column. *)
Definition columnMap (fs : list StructField) : gmap string string :=
  foldl (fun acc f => <[ovsColumn f := Name f]> acc) ∅
        (filter (fun f => ovsColumn f <> "") fs).

(** The column maps to a field of the row that holds a non-default
    value. *)
Definition populated (mi : MapperInfo) (st : store) (col : string) : Prop :=
  exists fieldName columnSchema field,
    fields mi !! col = Some fieldName
    /\ Column (table mi) col = Some columnSchema
    /\ FieldByColumn mi st col = Ok field
    /\ is_Some field
    /\ IsDefaultValue columnSchema field = false.

Definition populatedb (mi : MapperInfo) (st : store) (col : string) : bool :=
  match fields mi !! col, Column (table mi) col, FieldByColumn mi st col with
  | Some _, Some columnSchema, Ok field =>
      bool_decide (is_Some field) && negb (IsDefaultValue columnSchema field)
  | _, _, _ => false
  end.

End Mapper.

Section ColumnByPtr.
Context `{Schema}.

(** What the data model does not record of the memory layout:
    [Offset objType i] is [objType.Field(i).Offset], the offset the
    compiler gives the [i]-th field of the struct type, and [backing d] is
    the address [Value.Pointer()] returns for a slice or a map. *)
Variable Offset : Type_ -> nat -> Z.
Variable backing : Data -> Z.

(** [Value.Pointer()], a [uintptr]. *)
Definition Pointer (v : iface) : outcome error Z :=
  match v with
  | None => Panic "reflect: call of reflect.Value.Pointer on zero Value"
  | Some (t, d) =>
      match kind t with
      | KPtr => Ok (pointerOf d)
      | KSlice | KMap => Ok (backing d)
      | _ => Panic "reflect: call of reflect.Value.Pointer on a Value without pointer"
      end
  end.

(** [reflect.TypeOf(v).Elem()]. *)
Definition TypeOf_Elem (v : iface) : outcome error Type_ :=
  match v with
  | None => Panic "runtime error: invalid memory address or nil pointer dereference"
  | Some (t, _) =>
      match underlying t with
      | Ptr e | Slice e | Map _ e => Ok e
      | _ => Panic "reflect: Elem of invalid type"
      end
  end.

(** The loop of [ColumnByPtr] over the fields, from index [i] on. *)
Fixpoint fieldAtOffset (mi : MapperInfo) (objType : Type_) (fs : list StructField)
    (i : nat) (offset : Z) : outcome error string :=
  match fs with
  | [] => Err (Errorf "field pminter does not correspond to orm struct")
  | field :: rest =>
      if (Offset objType i =? offset)%Z
      then let column := Get (Tag field) "ovs" in
           match fields mi !! column with
           | None => Err (Errorf "field does not have orm column information")
           | Some _ => Ok column
           end
      else fieldAtOffset mi objType rest (S i) offset
  end.

(** ColumnByPtr returns the column name that corresponds to the field by
    the field's pointer.  The difference of the two [uintptr] wraps around
    at 2^64. *)
Definition ColumnByPtr (mi : MapperInfo) (fieldPtr : iface) : outcome error string :=
  let isPtr := match fieldPtr with
               | Some (t, _) => Kind_eqb (kind t) KPtr
               | None => false
               end in
  if negb isPtr
  then Err (ErrWrongType "ColumnByPminter" "pminter to a field in the struct" fieldPtr)
  else
    p ← Pointer fieldPtr;
    b ← Pointer (obj mi);
    let offset := ((p - b) mod 2 ^ 64)%Z in
    objType ← TypeOf_Elem (obj mi);
    match underlying objType with
    | Struct fs => fieldAtOffset mi objType fs 0 offset
    | _ => Panic "reflect: NumField of non-struct type"
    end.

End ColumnByPtr.
End mapper.

(** ** A schema, modelled from the spec *)

Module schema.
Import reflect mapper.

(** Modelled from the spec: the schema of package [ovsdb] ([TableSchema],
    [ColumnSchema], [NativeType], [IsDefaultValue]) is not among the sources.
    The spec describes a table as a map from column names to declared value
    types (atomic, set<atomic>, map<atomic,atomic>) with a list of indexes,
    and a value as default when it equals the zero value of the declared
    native type: empty string, zero number, empty collection, zero UUID. *)
Inductive AtomicType := TypeInteger | TypeReal | TypeBoolean | TypeString | TypeUUID.

Inductive ColumnType :=
| Atomic (a : AtomicType)
| SetOf (a : AtomicType)
| MapOf (k v : AtomicType).

Record Table := {
  Columns : gmap string ColumnType;
  TableIndexes : list (list string)
}.

Definition NativeTypeFromAtomic (a : AtomicType) : Type_ :=
  match a with
  | TypeInteger => Int
  | TypeReal => Float64
  | TypeBoolean => Bool
  | TypeString => String
  | TypeUUID => String
  end.

Definition nativeType (c : ColumnType) : Type_ :=
  match c with
  | Atomic a => NativeTypeFromAtomic a
  | SetOf a => Slice (NativeTypeFromAtomic a)
  | MapOf k v => Map (NativeTypeFromAtomic k) (NativeTypeFromAtomic v)
  end.

Definition zeroUUID : string := "00000000-0000-0000-0000-000000000000".

Definition isDefaultValue (c : ColumnType) (v : iface) : bool :=
  match v with
  | None => true
  | Some (_, d) =>
      match c, d with
      | Atomic TypeInteger, DInt n => (n =? 0)%Z
      | Atomic TypeReal, DFloat64 f => PrimFloat.eqb f 0%float
      | Atomic TypeBoolean, DBool b => negb b
      | Atomic TypeString, DString s => String.eqb s ""
      | Atomic TypeUUID, DString s => String.eqb s "" || String.eqb s zeroUUID
      | SetOf _, DSlice None => true
      | SetOf _, DSlice (Some l) => bool_decide (l = [])
      | MapOf _ _, DMap None => true
      | MapOf _ _, DMap (Some l) => bool_decide (l = [])
      | _, _ => false
      end
  end.

#[export] Instance spec_schema : ovsdb.Schema := {|
  ovsdb.TableSchema := Table;
  ovsdb.ColumnSchema := ColumnType;
  ovsdb.Column := fun t c => Columns t !! c;
  ovsdb.Indexes := TableIndexes;
  ovsdb.NativeType := nativeType;
  ovsdb.IsDefaultValue := isDefaultValue
|}.

(** *** Vocabulary of the statement about the valid indexes *)

(** The zero values, in the words of the spec: "empty string, zero number,
    empty collection, zero-UUID".  A real is zero when it compares equal to
    0, a collection is empty when it is nil or has no element, and a UUID,
    which is held as a string, is zero when it is empty or the UUID of
    zeros.  The zero value that Go gives the native type is among them
    (lemma [zeroValue_Zero]); the UUID of zeros and the collections that
    are empty without being nil are the others. *)
Inductive zeroValue : ColumnType -> Data -> Prop :=
| zero_integer : zeroValue (Atomic TypeInteger) (DInt 0)
| zero_real f : PrimFloat.eqb f 0%float = true -> zeroValue (Atomic TypeReal) (DFloat64 f)
| zero_boolean : zeroValue (Atomic TypeBoolean) (DBool false)
| zero_string : zeroValue (Atomic TypeString) (DString "")
| zero_uuid_empty : zeroValue (Atomic TypeUUID) (DString "")
| zero_uuid : zeroValue (Atomic TypeUUID) (DString zeroUUID)
| zero_set_nil a : zeroValue (SetOf a) (DSlice None)
| zero_set_empty a : zeroValue (SetOf a) (DSlice (Some []))
| zero_map_nil k v : zeroValue (MapOf k v) (DMap None)
| zero_map_empty k v : zeroValue (MapOf k v) (DMap (Some [])).

(** Column [col] maps to a field of the row at address [a], a struct with
    the fields [fs], that holds a non-default value: the last field tagged
    [col] is [f], the table declares [col] with the native type of [f], and
    the cell of [f] does not hold a zero value of the declared type. *)
Definition nonDefault (tbl : Table) (fs : list StructField) (a : Z) (st : store)
    (col : string) : Prop :=
  exists f c,
    f ∈ fs
    /\ columnMap fs !! col = Some (Name f)
    /\ Columns tbl !! col = Some c
    /\ nativeType c = FieldType f
    /\ ~ zeroValue c (load st a f).

End schema.

(** ** The part of package [strconv] that [encoding/json] relies on *)

Module strconv.

(** The conversions between number literals and [float64]:
    - [ParseFloat s] is [strconv.ParseFloat(s, 64)], [None] standing for an
      error, which for a JSON number literal is a value out of range;
    - [FormatFloat f] is the literal that the encoder of [encoding/json]
      writes for [f].
    The decoding of numbers is stated over any implementation of the two. *)
Class Strconv : Type := {
  ParseFloat : string -> option float;
  FormatFloat : float -> string
}.

(** *** The conversions of binary64

    An implementation by exact integer arithmetic, which the examples use:
    a literal is read as the float64 nearest to the number it denotes, ties
    to even, and is out of range when that is an infinity (a number too
    small is read as zero); a float64 is written with the fewest digits that
    read back as it, in the format [%f], or in the format [%e] below 1e-6 and
    from 1e21 on.  The exponent of a literal is taken as written, where
    [strconv] stops reading it once it is past 10000. *)

Definition digit (c : Ascii.ascii) : option Z :=
  let n := Z.of_N (Ascii.N_of_ascii c) in
  if ((48 <=? n) && (n <=? 57))%Z then Some (n - 48)%Z else None.

(** Reads a run of digits: the number read so far, the count of digits, the
    rest of the text. *)
Fixpoint readDigits (s : string) (acc n : Z) : Z * Z * string :=
  match s with
  | EmptyString => (acc, n, s)
  | String c rest =>
      match digit c with
      | Some d => readDigits rest (10 * acc + d)%Z (n + 1)%Z
      | None => (acc, n, s)
      end
  end.

Definition skip (code : N) (s : string) : option string :=
  match s with
  | String c rest => if (Ascii.N_of_ascii c =? code)%N then Some rest else None
  | EmptyString => None
  end.

(** A number literal [-d.ddde±dd] as sign, digits and power of ten. *)
Definition readNumber (s : string) : option (bool * Z * Z) :=
  let '(neg, s) :=
    match skip 45 s with Some r => (true, r) | None => (false, s) end in
  let '(m, n, s) := readDigits s 0 0 in
  if (n =? 0)%Z then None
  else
    let '(m, frac, s) :=
      match skip 46 s with Some r => readDigits r m 0 | None => (m, 0%Z, s) end in
    let '(e, s) :=
      match (match skip 101 s with Some r => Some r | None => skip 69 s end) with
      | Some r =>
          let '(eneg, r) :=
            match skip 45 r with
            | Some r' => (true, r')
            | None => (false, default r (skip 43 r))
            end in
          let '(e, _, r) := readDigits r 0 0 in
          ((if eneg : bool then - e else e)%Z, r)
      | None => (0%Z, s)
      end in
    match s with
    | EmptyString => Some (neg, m, (e - frac)%Z)
    | _ => None
    end.

(** The binary64 nearest to [± m * 10^e]. *)
Definition round (neg : bool) (m e : Z) : spec_float :=
  match m with
  | Zpos p =>
      if (0 <=? e)%Z
      then binary_round prec emax neg (p * Z.to_pos (10 ^ e)) 0
      else SFdiv prec emax (S754_finite neg p 0)
             (S754_finite false (Z.to_pos (10 ^ (- e))) 0)
  | _ => S754_zero neg
  end.

Definition parseFloat (s : string) : option float :=
  match readNumber s with
  | Some (neg, m, e) =>
      match round neg m e with
      | S754_infinity _ => None
      | x => Some (SF2Prim x)
      end
  | None => None
  end.

Fixpoint digitsOf (fuel : nat) (n : Z) (acc : string) : string :=
  match fuel with
  | O => acc
  | S fuel =>
      let acc := String (Ascii.ascii_of_N (Z.to_N (48 + n mod 10))) acc in
      if (n <? 10)%Z then acc else digitsOf fuel (n / 10)%Z acc
  end.

(** The decimal digits of a natural number. *)
Definition itoa (n : Z) : string := digitsOf (S (Z.to_nat (Z.log2 n))) n "".

(** [num / den / 10^u] as a fraction. *)
Definition scale (num den u : Z) : Z * Z :=
  if (0 <=? u)%Z then (num, den * 10 ^ u)%Z else (num * 10 ^ (- u), den)%Z.

(** The [p] with [10^p <= num / den < 10^(p+1)], found from an estimate by
    the binary logarithms. *)
Fixpoint exponentFrom (fuel : nat) (num den p : Z) : Z :=
  match fuel with
  | O => p
  | S fuel =>
      let '(a, b) := scale num den (p + 1) in
      if (b <=? a)%Z then exponentFrom fuel num den (p + 1)%Z else p
  end.

Definition exponent (num den : Z) : Z :=
  exponentFrom 4 num den (((Z.log2 num - Z.log2 den - 1) * 30102) / 100000 - 1)%Z.

(** The shortest decimal [c * 10^u] that reads back as [x], which is the
    positive number [num / den] exactly, trying [n] digits and then more. *)
Fixpoint shortest (fuel : nat) (x : spec_float) (num den p : Z) (n : Z) : Z * Z :=
  let u := (p - n + 1)%Z in
  let '(a, b) := scale num den u in
  let down := (a / b)%Z in
  let up := (down + 1)%Z in
  match fuel with
  | O => (down, u)
  | S fuel =>
      let okdown := SFeqb (round false down u) x in
      let okup := SFeqb (round false up u) x in
      if okdown && okup
      then match (2 * (a mod b) ?= b)%Z with
           | Lt => (down, u)
           | Gt => (up, u)
           | Eq => if Z.even down then (down, u) else (up, u)
           end
      else if okdown then (down, u)
      else if okup then (up, u)
      else shortest fuel x num den p (n + 1)%Z
  end.

Fixpoint stripZeros (fuel : nat) (c u : Z) : Z * Z :=
  match fuel with
  | O => (c, u)
  | S fuel =>
      if ((c mod 10 =? 0) && (0 <? c))%Z then stripZeros fuel (c / 10)%Z (u + 1)%Z
      else (c, u)
  end.

Fixpoint zeros (n : nat) : string :=
  match n with O => "" | S n => String (Ascii.ascii_of_N 48) (zeros n) end.

Definition take (n : nat) (s : string) : string := String.substring 0 n s.
Definition drop (n : nat) (s : string) : string :=
  String.substring n (String.length s - n) s.

(** The digits [ds], read as [0.ds * 10^dp], in the format [%e] with the
    exponent as it is left by the encoder, and in the format [%f]. *)
Definition fmtE (ds : string) (dp : Z) : string :=
  let e := (dp - 1)%Z in
  take 1 ds
  ++ (if (String.length ds <=? 1)%nat then "" else "." ++ drop 1 ds)
  ++ "e" ++ (if (e <? 0)%Z then "-" else "+") ++ itoa (Z.abs e).

Definition fmtF (ds : string) (dp : Z) : string :=
  let nd := Z.of_nat (String.length ds) in
  if (dp <=? 0)%Z then "0." ++ zeros (Z.to_nat (- dp)) ++ ds
  else if (nd <=? dp)%Z then ds ++ zeros (Z.to_nat (dp - nd))
  else take (Z.to_nat dp) ds ++ "." ++ drop (Z.to_nat dp) ds.

Definition formatFloat (f : float) : string :=
  match Prim2SF f with
  | S754_zero s => if s then "-0" else "0"
  | S754_infinity s => if s then "-Inf" else "+Inf"
  | S754_nan => "NaN"
  | S754_finite s m e =>
      let '(num, den) :=
        if (0 <=? e)%Z then (Zpos m * 2 ^ e, 1)%Z else (Zpos m, 2 ^ (- e))%Z in
      let '(c, u) := shortest 17 (S754_finite false m e) num den (exponent num den) 1 in
      let '(c, u) := stripZeros 17 c u in
      let ds := itoa c in
      let dp := (Z.of_nat (String.length ds) + u)%Z in
      (if s then "-" else "")
      ++ (if (dp <? -5)%Z || (21 <? dp)%Z then fmtE ds dp else fmtF ds dp)
  end.

#[export] Instance binary64 : Strconv := {|
  ParseFloat := parseFloat;
  FormatFloat := formatFloat
|}.

End strconv.

(** ** [ovsdb/mutation.go] *)

Module mutation.
Import strconv.

(** A JSON document.  The byte slices that [json.Marshal] produces and
    [json.Unmarshal] consumes are represented by the document they spell: a
    string by the bytes its literal denotes once the escapes are expanded, a
    number by its literal, an object by its members in the order of the
    text. *)
Inductive json :=
| JNull
| JBool (b : bool)
| JNumber (literal : string)
| JString (s : string)
| JArray (elems : list json)
| JObject (members : list (string * json)).

(** *** What [encoding/json] does to strings

    Both the encoder and the decoder coerce a string to well-formed UTF-8:
    they walk it with [utf8.DecodeRune], copy each well-formed encoding and
    put U+FFFD in place of every byte at which none begins. *)

Definition inRange (lo hi : N) (c : Ascii.ascii) : bool :=
  ((lo <=? Ascii.N_of_ascii c) && (Ascii.N_of_ascii c <=? hi))%N.

(** The width of the encoding that begins [s], [None] where
    [utf8.DecodeRuneInString] returns [RuneError] (with width 1, or 0 for
    the empty string).  The ranges of the second byte are those of the
    table [acceptRanges]. *)
Definition runeLen (s : string) : option nat :=
  match s with
  | EmptyString => None
  | String c0 s1 =>
      let b0 := Ascii.N_of_ascii c0 in
      if (b0 <? 128)%N then Some 1
      else if (b0 <? 194)%N then None
      else if (b0 <? 224)%N then
        match s1 with
        | String c1 _ => if inRange 128 191 c1 then Some 2 else None
        | _ => None
        end
      else if (b0 <? 240)%N then
        match s1 with
        | String c1 (String c2 _) =>
            if inRange (if (b0 =? 224)%N then 160 else 128)
                       (if (b0 =? 237)%N then 159 else 191) c1
               && inRange 128 191 c2
            then Some 3 else None
        | _ => None
        end
      else if (b0 <? 245)%N then
        match s1 with
        | String c1 (String c2 (String c3 _)) =>
            if inRange (if (b0 =? 240)%N then 144 else 128)
                       (if (b0 =? 244)%N then 143 else 191) c1
               && inRange 128 191 c2 && inRange 128 191 c3
            then Some 4 else None
        | _ => None
        end
      else None
  end.

(** [coerceFrom n s]: the coercion of [s] when its first [n] bytes end an
    encoding found before. *)
Fixpoint coerceFrom (pending : nat) (s : string) : string :=
  match s with
  | EmptyString => EmptyString
  | String c rest =>
      match pending with
      | S n => String c (coerceFrom n rest)
      | O =>
          match runeLen s with
          | Some n => String c (coerceFrom (Nat.pred n) rest)
          | None =>
              (* U+FFFD is EF BF BD *)
              String (Ascii.ascii_of_N 239) (String (Ascii.ascii_of_N 191) (String (Ascii.ascii_of_N 189) (coerceFrom 0 rest)))
          end
      end
  end.

Definition coerce (s : string) : string := coerceFrom 0 s.


Fixpoint isASCII (s : string) : bool :=
  match s with
  | EmptyString => true
  | String c rest => (Ascii.N_of_ascii c <? 128)%N && isASCII rest
  end.

(** *** Mutations *)

Definition Mutator := string.

Definition MutateOperationDelete : Mutator := "delete".
Definition MutateOperationInsert : Mutator := "insert".
Definition MutateOperationAdd : Mutator := "+=".
Definition MutateOperationSubstract : Mutator := "-=".
Definition MutateOperationMultiply : Mutator := "*=".
Definition MutateOperationDivide : Mutator := "/=".
Definition MutateOperationModulo : Mutator := "%=".

Definition mutators : list Mutator :=
  [ MutateOperationDelete; MutateOperationInsert; MutateOperationAdd;
    MutateOperationSubstract; MutateOperationMultiply; MutateOperationDivide;
    MutateOperationModulo ].

(** A Go value held in an [interface{}], as far as [json.Marshal] tells
    values apart: [Marshals doc] is a value that it writes as [doc] (nil as
    [JNull], the string ["x"] as [JString "x"], a [float64] as the literal
    of [FormatFloat], a map as the object with its keys sorted), [Refused]
    a value that it returns an error for (a channel, a function, a NaN, a
    [Marshaler] that fails). *)
Inductive value :=
| Marshals (doc : json)
| Refused (reason : string).

Coercion Marshals : json >-> value.

(** Mutation is described in RFC 7047: 5.1. *)
Record Mutation := {
  Column : string;
  Mutator_ : Mutator;
  Value : value
}.

(** NewMutation returns a new mutation. *)
Definition NewMutation (column : string) (mutator : Mutator) (value : value) : Mutation :=
  {| Column := column; Mutator_ := mutator; Value := value |}.

(** The errors of [MarshalJSON] and [UnmarshalJSON].  An
    [UnmarshalTypeError] keeps its fields [Value] and [Type]; an error built
    with [%v] or [%d] keeps the formatted operand. *)
Inductive error :=
| SyntaxError
| UnmarshalTypeError (Value_ Type_ : string)
| MarshalError (reason : string)
| ErrElements (n : nat)
| ErrColumnName (v0 : json)
| ErrMutatorString (v1 : json)
| ErrNotValidMutator (msg : string).

(** [json.Marshal(v)] for [v := []interface{}{column, mutator, value}]: the
    two strings are coerced to UTF-8; with an error the byte slice is nil,
    which is written [JNull] here. *)
Definition Marshal_slice (column mutator : string) (value : value)
  : json * option error :=
  match value with
  | Marshals doc => (JArray [JString (coerce column); JString (coerce mutator); doc], None)
  | Refused reason => (JNull, Some (MarshalError reason))
  end.

(** MarshalJSON marshals a mutation to a 3 element JSON array. *)
Definition MarshalJSON (m : Mutation) : json * option error :=
  Marshal_slice (Column m) (Mutator_ m) (Value m).

Section Decoder.
Context `{Strconv}.

(** [decodeState.saveError]: the first error is kept. *)
Definition saveError (saved err : option error) : option error :=
  match saved with
  | Some _ => saved
  | None => err
  end.

(** [decodeState.convertNumber], the result being written as the document
    that [json.Marshal] makes of it. *)
Definition convertNumber (s : string) : json * option error :=
  match ParseFloat s with
  | Some f => (JNumber (FormatFloat f), None)
  | None => (JNull, Some (UnmarshalTypeError ("number " ++ s) "float64"))
  end.

(** [m[key] = v] on a [map[string]interface{}], the map being kept as
    [json.Marshal] writes it: sorted by key. *)
Fixpoint mapassign (key : string) (v : json) (m : list (string * json))
  : list (string * json) :=
  match m with
  | [] => [(key, v)]
  | (k, x) :: rest =>
      match String.compare key k with
      | Lt => (key, v) :: m
      | Eq => (key, v) :: rest
      | Gt => (k, x) :: mapassign key v rest
      end
  end.

(** [decodeState.valueInterface]: the decoding of a document into an
    [interface{}], the outcome being a value of the kinds nil, bool,
    float64, string, [[]interface{}] and [map[string]interface{}], written
    as the document that [json.Marshal] makes of it.  A number out of range
    is decoded as nil, its error saved, and the decoding goes on. *)
Fixpoint valueInterface (j : json) : json * option error :=
  match j with
  | JNull => (JNull, None)
  | JBool b => (JBool b, None)
  | JNumber literal => convertNumber literal
  | JString s => (JString (coerce s), None)
  | JArray elems =>
      let '(v, err) :=
        (fix arrayInterface (elems : list json) : list json * option error :=
           match elems with
           | [] => ([], None)
           | e :: elems =>
               let '(x, err) := valueInterface e in
               let '(v, saved) := arrayInterface elems in
               (x :: v, saveError err saved)
           end) elems in
      (JArray v, err)
  | JObject members =>
      let '(m, err) :=
        (fix objectInterface (members : list (string * json))
             (m : list (string * json)) (saved : option error)
           : list (string * json) * option error :=
           match members with
           | [] => (m, saved)
           | (key, e) :: members =>
               let '(x, err) := valueInterface e in
               objectInterface members (mapassign (coerce key) x m) (saveError saved err)
           end) members [] None in
      (JObject m, err)
  end.

(** The members of an object, decoded one after the other into the map
    [m]. *)
Fixpoint objectInterface (members : list (string * json)) (m : list (string * json))
    (saved : option error) : list (string * json) * option error :=
  match members with
  | [] => (m, saved)
  | (key, e) :: members =>
      let '(x, err) := valueInterface e in
      objectInterface members (mapassign (coerce key) x m) (saveError saved err)
  end.

(** The elements of an array, decoded one after the other. *)
Fixpoint arrayInterface (elems : list json) : list json * option error :=
  match elems with
  | [] => ([], None)
  | e :: elems =>
      let '(x, err) := valueInterface e in
      let '(v, saved) := arrayInterface elems in
      (x :: v, saveError err saved)
  end.

(** Every number literal of the document is in the range of float64. *)
Fixpoint inFloat64 (j : json) : bool :=
  match j with
  | JNumber literal => bool_decide (is_Some (ParseFloat literal))
  | JArray elems => forallb inFloat64 elems
  | JObject members => forallb (fun kv => inFloat64 kv.2) members
  | _ => true
  end.

(** [json.Unmarshal(b, &v)] for [var v []interface{}]; [b] is [None] when
    [checkValid] refuses the bytes: they are not a JSON text, or one that is
    nested deeper than the decoder goes.  [null] leaves [v] nil; a document
    that is neither [null] nor an array is skipped with an error. *)
Definition Unmarshal_slice (b : option json) : list json * option error :=
  match b with
  | None => ([], Some SyntaxError)
  | Some JNull => ([], None)
  | Some (JArray elems) => arrayInterface elems
  | Some (JBool _) => ([], Some (UnmarshalTypeError "bool" "[]interface {}"))
  | Some (JNumber _) => ([], Some (UnmarshalTypeError "number" "[]interface {}"))
  | Some (JString _) => ([], Some (UnmarshalTypeError "string" "[]interface {}"))
  | Some (JObject _) => ([], Some (UnmarshalTypeError "object" "[]interface {}"))
  end.

(** The [switch] on the mutator: [Some m'] is the receiver after the
    switch, [None] the [default] branch.  A Go case does not fall through,
    so the cases with an empty body leave the receiver as it is. *)
Definition switchMutator (m : Mutation) (mutator : Mutator) : option Mutation :=
  if String.eqb mutator MutateOperationDelete then Some m
  else if String.eqb mutator MutateOperationInsert then Some m
  else if String.eqb mutator MutateOperationAdd then Some m
  else if String.eqb mutator MutateOperationSubstract then Some m
  else if String.eqb mutator MutateOperationMultiply then Some m
  else if String.eqb mutator MutateOperationDivide then Some m
  else if String.eqb mutator MutateOperationModulo
       then Some {| Column := Column m; Mutator_ := mutator; Value := Value m |}
  else None.

(** UnmarshalJSON converts a 3 element JSON array to a Mutation.  The
    method has a value receiver: the result pairs the receiver [m], which is
    the method's own copy, as it stands when the method returns, with the
    returned error. *)
Definition UnmarshalJSON (m : Mutation) (b : option json) : Mutation * option error :=
  match Unmarshal_slice b with
  | (_, Some err) => (m, Some err)
  | (v, None) =>
      match v with
      | [v0; v1; v2] =>
          let '(column, ok) :=
            match v0 with JString s => (s, true) | _ => ("", false) end in
          let m := {| Column := column; Mutator_ := Mutator_ m; Value := Value m |} in
          if negb ok then (m, Some (ErrColumnName v0))
          else match v1 with
               | JString mutatorString =>
                   match switchMutator m mutatorString with
                   | Some m =>
                       ({| Column := Column m; Mutator_ := Mutator_ m;
                           Value := Marshals v2 |}, None)
                   | None =>
                       (m, Some (ErrNotValidMutator
                                   (mutatorString ++ " is not a valid mutator")))
                   end
               | _ => (m, Some (ErrMutatorString v1))
               end
      | _ => (m, Some (ErrElements (length v)))
      end
  end.

(** [json.Unmarshal(b, &target)] for a [Mutation]: the decoder finds
    [UnmarshalJSON] in the method set of [*Mutation] and calls it; as the
    receiver is passed by value, [target] is what it was before the call. *)
Definition Unmarshal (b : option json) (target : Mutation) : Mutation * option error :=
  let '(_, err) := UnmarshalJSON target b in (target, err).

End Decoder.

(** Induction over documents that also covers the elements of an array and
    the members of an object. *)
Fixpoint json_ind' (P : json -> Prop)
    (HNull : P JNull) (HBool : forall b, P (JBool b))
    (HNumber : forall literal, P (JNumber literal))
    (HString : forall s, P (JString s))
    (HArray : forall elems, Forall P elems -> P (JArray elems))
    (HObject : forall members, Forall (fun kv => P kv.2) members -> P (JObject members))
    (j : json) {struct j} : P j :=
  let rec := json_ind' P HNull HBool HNumber HString HArray HObject in
  match j with
  | JNull => HNull
  | JBool b => HBool b
  | JNumber literal => HNumber literal
  | JString s => HString s
  | JArray elems =>
      HArray elems
        ((fix go (l : list json) : Forall P l :=
            match l with
            | [] => List.Forall_nil _
            | x :: l' => @List.Forall_cons _ _ x l' (rec x) (go l')
            end) elems)
  | JObject members =>
      HObject members
        ((fix go (l : list (string * json)) : Forall (fun kv => P kv.2) l :=
            match l with
            | [] => List.Forall_nil _
            | kv :: l' =>
                @List.Forall_cons _ (fun kv => P kv.2) kv l'
                  (match kv return P kv.2 with (_, x) => rec x end)
                  (go l')
            end) members)
  end.

End mutation.

(** ** [client/condition.go] *)

Module client.

(** An [error] is represented by the text its [Error()] method returns. *)
Record error := errors_New { Error : string }.

(** Modelled from the spec: [ErrNotFound] is a variable of package [client]
    declared outside the sources; the spec names it [not found]. *)
Definition ErrNotFound : error := errors_New "not found".

(** Modelled from the spec: the error of a local match on explicit
    conditions. *)
Definition ErrExplicitLocalMatch : error :=
  errors_New "explicit conditions cannot be evaluated locally".

(** A call returns its results, the last of which is an [error] that is
    [None] when nil, or panics. *)
Inductive result (A : Type) : Type :=
| Return (a : A) (err : option error)
| Panics (msg : string).
Arguments Return {A} a err.
Arguments Panics {A} msg.

Definition ConditionFunction := string.

(** Modelled from the spec: the condition functions of package [ovsdb]. *)
Definition ConditionEqual : ConditionFunction := "==".
Definition ConditionNotEqual : ConditionFunction := "!=".
Definition ConditionIncludes : ConditionFunction := "includes".
Definition ConditionExcludes : ConditionFunction := "excludes".

Section Client.
(** [M]: the non-nil values of [Model]; [F]: field references; [V]: the
    values carried by wire conditions. *)
Context {M F V : Type}.

(** [type Model interface{}]. *)
Definition Model : Type := option M.

(** [ovsdb.Condition], as the tests build it. *)
Record ovsdbCondition := NewCondition {
  Column : string;
  Function : ConditionFunction;
  Value : V
}.

(** The equality on [_uuid] that selects the row of a cache entry; [enc]
    is the protocol form of a UUID. *)
Definition uuidCondition (enc : string -> V) (kv : string * M) : ovsdbCondition :=
  NewCondition "_uuid" ConditionEqual (enc kv.1).

(** The methods of [*orm] that [condition.go] calls.  Their code is not
    among the sources, so an [orm] is given by these methods;
    [newExplicit] is the encoding of one explicit condition
    (field reference to column, value to protocol form). *)
Record orm := {
  newCondition : string -> Model -> list F -> list ovsdbCondition * option error;
  equalFields : string -> Model -> Model -> list F -> bool * option error;
  newExplicit : string -> Model -> F * ConditionFunction * V ->
                ovsdbCondition * option error
}.

(** Modelled from the spec: [TableCache] maps a table name to its row
    cache, a map from row UUID to (non-nil) row value; [Table] yields nil
    for a name without entry, [Rows] lists the UUIDs, in the order of the
    map's listing, and [Row] looks one up, nil when it is absent. *)
Record TableCache := {
  cache : gmap string (gmap string M);
  cache_orm : orm
}.

Definition TableCache_Table (t : TableCache) (name : string) : option (gmap string M) :=
  cache t !! name.

Definition Rows (r : gmap string M) : list string := (map_to_list r).*1.

Definition Row (r : gmap string M) (uuid : string) : Model := r !! uuid.

(** ConditionFactory is the interface used by the ConditionalAPI to match on
    cache objects and generate operation conditions. *)
Class ConditionFactory (T : Type) := {
  Generate : T -> result (list ovsdbCondition);
  Matches : T -> Model -> result bool;
  Table : T -> string
}.

(** indexCond uses the information available in a model to generate
    conditions. *)
Record indexCondFactory := {
  idx_orm : orm;
  idx_tableName : string;
  idx_model : Model;
  idx_fields : list F
}.

Definition indexCondFactory_Matches (c : indexCondFactory) (m : Model) : result bool :=
  let '(b, err) := equalFields (idx_orm c) (idx_tableName c) (idx_model c) m (idx_fields c) in
  Return b err.

Definition indexCondFactory_Table (c : indexCondFactory) : string := idx_tableName c.

Definition indexCondFactory_Generate (c : indexCondFactory)
  : result (list ovsdbCondition) :=
  let '(condition, err) :=
    newCondition (idx_orm c) (idx_tableName c) (idx_model c) (idx_fields c) in
  match err with
  | Some e => Return [] (Some e)
  | None => Return condition None
  end.

#[export] Instance indexCondFactory_factory : ConditionFactory indexCondFactory := {|
  Generate := indexCondFactory_Generate;
  Matches := indexCondFactory_Matches;
  Table := indexCondFactory_Table
|}.

(** newIndexCondition creates a new indexCondFactory. *)
Definition newIndexCondition (o : orm) (table : string) (model : Model) (fields : list F)
  : indexCondFactory * option error :=
  ({| idx_orm := o; idx_tableName := table; idx_model := model; idx_fields := fields |},
   None).

(** predicateCondFactory is a conditionFactory that calls a provided
    function pointer to match on models. *)
Record predicateCondFactory := {
  pred_tableName : string;
  predicate : M -> bool;
  pred_cache : TableCache
}.

(** The predicate is called through [reflect]; a nil model makes
    [reflect.ValueOf(model)] the zero Value, which [Call] rejects. *)
Definition predicateCondFactory_Matches (c : predicateCondFactory) (model : Model)
  : result bool :=
  match model with
  | None => Panics "reflect: Call using zero Value argument"
  | Some m => Return (predicate c m) None
  end.

Definition predicateCondFactory_Table (c : predicateCondFactory) : string :=
  pred_tableName c.

(** The loop of [Generate] over [tableCache.Rows()]. *)
Fixpoint generateRows (c : predicateCondFactory) (tableCache : gmap string M)
    (rows : list string) (allConditions : list ovsdbCondition)
  : result (list ovsdbCondition) :=
  match rows with
  | [] => Return allConditions None
  | row :: rest =>
      let elem := Row tableCache row in
      match predicateCondFactory_Matches c elem with
      | Panics msg => Panics msg
      | Return _ (Some err) => Return [] (Some err)
      | Return match_ None =>
          if match_ then
            let '(elemCond, err) :=
              newCondition (cache_orm (pred_cache c)) (pred_tableName c) elem [] in
            match err with
            | Some e => Return [] (Some e)
            | None => generateRows c tableCache rest (allConditions ++ elemCond)
            end
          else generateRows c tableCache rest allConditions
      end
  end.

(** generate returns a list of conditions that match, by _uuid equality, all
    the objects that match the predicate. *)
Definition predicateCondFactory_Generate (c : predicateCondFactory)
  : result (list ovsdbCondition) :=
  match TableCache_Table (pred_cache c) (pred_tableName c) with
  | None => Return [] (Some ErrNotFound)
  | Some tableCache => generateRows c tableCache (Rows tableCache) []
  end.

#[export] Instance predicateCondFactory_factory : ConditionFactory predicateCondFactory := {|
  Generate := predicateCondFactory_Generate;
  Matches := predicateCondFactory_Matches;
  Table := predicateCondFactory_Table
|}.

Definition newPredicateCondFactory (table : string) (c : TableCache) (p : M -> bool)
  : predicateCondFactory * option error :=
  ({| pred_tableName := table; predicate := p; pred_cache := c |}, None).

(** errorConditionFactory is a condition that encapsulates an error.  It is
    used to delay the reporting of errors from condition creation to method
    call. *)
Record errorConditionFactory := { err : error }.

Definition errorConditionFactory_Matches (e : errorConditionFactory) (_ : Model)
  : result bool := Return false (Some (err e)).

Definition errorConditionFactory_Table (e : errorConditionFactory) : string := "".

Definition errorConditionFactory_Generate (e : errorConditionFactory)
  : result (list ovsdbCondition) := Return [] (Some (err e)).

#[export] Instance errorConditionFactory_factory : ConditionFactory errorConditionFactory := {|
  Generate := errorConditionFactory_Generate;
  Matches := errorConditionFactory_Matches;
  Table := errorConditionFactory_Table
|}.

(** [fmt.Errorf("conditionerror: %s", err.Error())]. *)
Definition newErrorConditionFactory (e : error) : errorConditionFactory :=
  {| err := errors_New ("conditionerror: " ++ Error e) |}.

(** Modelled from the spec: the Explicit condition factory, which the tests
    build with [newExplicitConditionFactory] and whose code is not among the
    sources.  Construction resolves each (field reference, function, value)
    to its column and protocol value, in the caller's order; an error met on
    the way is retained in the factory.  [Matches] always fails; [Generate]
    returns the encoded conditions, or surfaces the retained error. *)
Record explicitCondFactory := {
  exp_orm : orm;
  exp_tableName : string;
  exp_model : Model;
  exp_conditions : list ovsdbCondition;
  exp_err : option error
}.

Definition explicitCondFactory_Matches (c : explicitCondFactory) (_ : Model)
  : result bool := Return false (Some ErrExplicitLocalMatch).

Definition explicitCondFactory_Table (c : explicitCondFactory) : string :=
  exp_tableName c.

Definition explicitCondFactory_Generate (c : explicitCondFactory)
  : result (list ovsdbCondition) :=
  match exp_err c with
  | Some e => Return [] (Some e)
  | None => Return (exp_conditions c) None
  end.

#[export] Instance explicitCondFactory_factory : ConditionFactory explicitCondFactory := {|
  Generate := explicitCondFactory_Generate;
  Matches := explicitCondFactory_Matches;
  Table := explicitCondFactory_Table
|}.

(** The encoding of the caller's conditions, first to last. *)
Fixpoint encodeConditions (o : orm) (table : string) (model : Model)
    (conds : list (F * ConditionFunction * V)) (acc : list ovsdbCondition)
  : list ovsdbCondition * option error :=
  match conds with
  | [] => (acc, None)
  | cond :: rest =>
      let '(encoded, err) := newExplicit o table model cond in
      match err with
      | Some e => ([], Some e)
      | None => encodeConditions o table model rest (acc ++ [encoded])
      end
  end.

Definition newExplicitConditionFactory (o : orm) (table : string) (model : Model)
    (conds : list (F * ConditionFunction * V))
  : explicitCondFactory * option error :=
  let '(encoded, err) := encodeConditions o table model conds [] in
  ({| exp_orm := o; exp_tableName := table; exp_model := model;
      exp_conditions := encoded; exp_err := err |}, None).

End Client.

Arguments ovsdbCondition : clear implicits.
Arguments orm : clear implicits.
Arguments TableCache : clear implicits.
Arguments indexCondFactory : clear implicits.
Arguments predicateCondFactory : clear implicits.
Arguments explicitCondFactory : clear implicits.
Arguments ConditionFactory : clear implicits.

End client.

(** ** Test data *)

Module fixtures.
Import reflect mapper schema.

Definition ovsTag (column : string) : list (string * string) := [("ovs", column)].

(** The row type of the tests, [testLogicalSwitchPort], with the fields the
    tests set. *)
Definition testLogicalSwitchPort : Type_ :=
  Named "client.testLogicalSwitchPort"
    (Struct [ mkStructField "UUID" String (ovsTag "_uuid");
              mkStructField "Name" String (ovsTag "name");
              mkStructField "Type" String (ovsTag "type");
              mkStructField "ExternalIds" (Map String String) (ovsTag "external_ids");
              mkStructField "Enabled" (Slice Bool) (ovsTag "enabled");
              mkStructField "Tag" (Slice Int) (ovsTag "tag") ]).

(** The table [Logical_Switch_Port], indexed by [name]. *)
Definition Logical_Switch_Port : Table := {|
  Columns := list_to_map
    [ ("_uuid", Atomic TypeUUID); ("name", Atomic TypeString);
      ("type", Atomic TypeString);
      ("external_ids", MapOf TypeString TypeString);
      ("enabled", SetOf TypeBoolean); ("tag", SetOf TypeInteger) ];
  TableIndexes := [ ["name"] ]
|}.

Definition aUUID0 : string := "2f77b348-9768-4866-b761-89d5177ecda0".

(** [&testLogicalSwitchPort{...}], allocated at address 4096. *)
Definition lspPtr : iface := Some (Ptr testLogicalSwitchPort, DPtr 4096).

(** [{UUID: aUUID0, Name: "different"}] *)
Definition byUUID : store :=
  {[ (4096%Z, "UUID") := DString aUUID0; (4096%Z, "Name") := DString "different" ]}.

(** [{UUID: "00000000-0000-0000-0000-000000000000", Name: "lsp1"}] *)
Definition byZeroUUID : store :=
  {[ (4096%Z, "UUID") := DString zeroUUID; (4096%Z, "Name") := DString "lsp1" ]}.

(** [{Name: "lsp1"}] *)
Definition byIndex : store := {[ (4096%Z, "Name") := DString "lsp1" ]}.

(** [{ExternalIds: map[string]string{"foo": "baz"}}] *)
Definition byNonIndex : store :=
  {[ (4096%Z, "ExternalIds") := DMap (Some [(DString "foo", DString "baz")]) ]}.

(** The mapper of [lspPtr] over [Logical_Switch_Port]. *)
Definition lspMapper : MapperInfo := {|
  fields := list_to_map
    [ ("_uuid", "UUID"); ("name", "Name"); ("type", "Type");
      ("external_ids", "ExternalIds"); ("enabled", "Enabled"); ("tag", "Tag") ];
  obj := lspPtr;
  table := Logical_Switch_Port
|}.

(** The layout of [testLogicalSwitchPort] on a 64-bit machine: strings
    take 16 bytes, a map 8, a slice 24. *)
Definition lspOffset (_ : Type_) (i : nat) : Z :=
  nth i [0; 16; 32; 48; 56; 80]%Z 104%Z.

Definition noBacking (_ : Data) : Z := 0%Z.

(** An orm whose methods always fail, for the cases where only the
    construction of a factory is of interest. *)
Definition noOrm : client.orm (Type_ * Data) unit iface := {|
  client.newCondition := fun _ _ _ => ([], Some (client.errors_New "unused"));
  client.equalFields := fun _ _ _ _ => (false, Some (client.errors_New "unused"));
  client.newExplicit := fun _ _ c =>
    (client.NewCondition "" c.1.2 c.2, Some (client.errors_New "unused"))
|}.

(** A cache of rows that are represented by their UUID, with an orm that
    answers such a row with the equality on it. *)
Definition uuidOrm : client.orm string unit string := {|
  client.newCondition := fun _ model _ =>
    match model with
    | Some row => ([client.NewCondition "_uuid" client.ConditionEqual row], None)
    | None => ([], Some (client.errors_New "nil model"))
    end;
  client.equalFields := fun _ a b _ => (bool_decide (a = b), None);
  client.newExplicit := fun _ _ c => (client.NewCondition "name" c.1.2 c.2, None)
|}.

Definition uuidCache : client.TableCache string unit string := {|
  client.cache := {[ "Logical_Switch_Port" := {[ "u0" := "u0"; "u1" := "u1" ]} ]};
  client.cache_orm := uuidOrm
|}.

(** A row type with two fields tagged [name], and one with a field without
    tag, each with an object and its mapper. *)
Definition aliased : Type_ :=
  Named "client.aliased"
    (Struct [ mkStructField "Name" String (ovsTag "name");
              mkStructField "Alias" String (ovsTag "name") ]).

Definition aliasedPtr : iface := Some (Ptr aliased, DPtr 8192).

Definition aliasedMapper : MapperInfo := {|
  fields := {[ "name" := "Alias" ]};
  obj := aliasedPtr;
  table := Logical_Switch_Port
|}.

Definition annotated : Type_ :=
  Named "client.annotated"
    (Struct [ mkStructField "Name" String (ovsTag "name");
              mkStructField "Note" String [] ]).

Definition annotatedPtr : iface := Some (Ptr annotated, DPtr 8192).

Definition annotatedMapper : MapperInfo := {|
  fields := {[ "name" := "Name" ]};
  obj := annotatedPtr;
  table := Logical_Switch_Port
|}.

(** An orm that finds no index, over a cache of one row. *)
Definition brokenOrm : client.orm string unit string := {|
  client.newCondition := fun _ _ _ => ([], Some (client.errors_New "no index"));
  client.equalFields := fun _ a b _ => (bool_decide (a = b), None);
  client.newExplicit := fun _ _ c => (client.NewCondition "name" c.1.2 c.2, None)
|}.

Definition brokenPorts : client.predicateCondFactory string unit string := {|
  client.pred_tableName := "Logical_Switch_Port";
  client.predicate := fun _ => true;
  client.pred_cache :=
    {| client.cache := {[ "Logical_Switch_Port" := {[ "u0" := "u0" ]} ]};
       client.cache_orm := brokenOrm |}
|}.

(** An orm that answers the row [u1] and finds no index for any other row,
    for which it returns a condition along with its error; and a predicate
    factory over a cache of three rows, which the scan visits in the order
    [u1], [u2], [u0]. *)
Definition partialOrm : client.orm string unit string := {|
  client.newCondition := fun _ model _ =>
    match model with
    | Some row =>
        if String.eqb row "u1"
        then ([client.NewCondition "_uuid" client.ConditionEqual row], None)
        else ([client.NewCondition "name" client.ConditionEqual row],
              Some (client.errors_New "no index"))
    | None => ([], Some (client.errors_New "nil model"))
    end;
  client.equalFields := fun _ a b _ => (bool_decide (a = b), None);
  client.newExplicit := fun _ _ c => (client.NewCondition "name" c.1.2 c.2, None)
|}.

Definition partialPorts : client.predicateCondFactory string unit string := {|
  client.pred_tableName := "Logical_Switch_Port";
  client.predicate := fun _ => true;
  client.pred_cache :=
    {| client.cache :=
         {[ "Logical_Switch_Port" := {[ "u0" := "u0"; "u1" := "u1"; "u2" := "u2" ]} ]};
       client.cache_orm := partialOrm |}
|}.

(** A predicate factory over the cached table, and one over a table the
    cache has no entry for. *)
Definition enabledPorts : client.predicateCondFactory string unit string := {|
  client.pred_tableName := "Logical_Switch_Port";
  client.predicate := fun row => String.eqb row "u1";
  client.pred_cache := uuidCache
|}.

Definition switches : client.predicateCondFactory string unit string := {|
  client.pred_tableName := "Logical_Switch";
  client.predicate := fun _ => true;
  client.pred_cache := uuidCache
|}.

(** Mutations: one whose column is not UTF-8 (the byte FF before [tag]) and
    whose value is the number 1, held in a [json.Number] written [1.0]; one
    whose mutator is the byte FF; and a target that was filled before. *)
Definition rawColumn : string := String.String (Ascii.ascii_of_N 255) "tag".

Definition rawMutation : mutation.Mutation :=
  mutation.NewMutation rawColumn mutation.MutateOperationInsert
    (mutation.Marshals (mutation.JNumber "1.0")).

Definition oddMutation : mutation.Mutation :=
  mutation.NewMutation "ports" (String.String (Ascii.ascii_of_N 255) "")
    (mutation.Marshals (mutation.JString "x")).

Definition staleMutation : mutation.Mutation :=
  mutation.NewMutation "old" mutation.MutateOperationDelete
    (mutation.Marshals mutation.JNull).

(** U+FFFD in UTF-8. *)
Definition replacement : string :=
  String.String (Ascii.ascii_of_N 239)
    (String.String (Ascii.ascii_of_N 191) (String.String (Ascii.ascii_of_N 189) "")).

End fixtures.

(** * Properties *)

(** ** Strings *)

Lemma string_length_append (s1 s2 : string) :
  String.length (s1 ++ s2) = String.length s1 + String.length s2.
Proof.
  induction s1 as [|a s1 IH]; [done|].
  change (String.length (String a (s1 ++ s2)) = S (String.length s1 + String.length s2)).
  simpl. by rewrite IH.
Qed.

(** ** Types and assignability *)

Module reflect_facts.
Import reflect.

Lemma Type_eqb_refl (t : Type_) : Type_eqb t t = true.
Proof.
  induction t using Type_rect'; simpl; auto.
  - by rewrite IHt1, IHt2.
  - induction H as [|[n ft tg] fs Hf Hfs IH]; [done|].
    simpl in Hf. rewrite String.eqb_refl, Hf, bool_decide_eq_true_2 by done.
    exact IH.
  - by rewrite String.eqb_refl, IHt.
Qed.

Lemma Type_eqb_eq (a b : Type_) : Type_eqb a b = true <-> a = b.
Proof.
  split; [|intros ->; apply Type_eqb_refl].
  revert b. induction a using Type_rect'; intros b Hb; destruct b; simpl in Hb;
    try discriminate; auto.
  - f_equal; auto.
  - apply andb_true_iff in Hb as [? ?]. f_equal; auto.
  - f_equal; auto.
  - f_equal. revert fields Hb.
    induction H as [|[n ft tg] fs Hf Hfs IH]; intros [|[m u ug] gs] Hb;
      try discriminate; [done|].
    simpl in Hf.
    repeat (apply andb_true_iff in Hb as [Hb ?]).
    apply String.eqb_eq in Hb. apply bool_decide_eq_true_1 in H0.
    f_equal; [|by apply IH]. f_equal; auto.
  - apply andb_true_iff in Hb as [Hn ?]. apply String.eqb_eq in Hn.
    f_equal; auto.
Qed.

Lemma Type_eqb_neq (a b : Type_) : Type_eqb a b = false <-> a <> b.
Proof.
  rewrite <- Type_eqb_eq. destruct (Type_eqb a b); split; congruence.
Qed.

Lemma Type_eqb_sym (a b : Type_) : Type_eqb a b = Type_eqb b a.
Proof.
  destruct (Type_eqb a b) eqn:E.
  - apply Type_eqb_eq in E as ->. symmetry. apply Type_eqb_refl.
  - symmetry. apply Type_eqb_neq. apply Type_eqb_neq in E. congruence.
Qed.

Lemma Kind_eqb_sym (a b : Kind) : Kind_eqb a b = Kind_eqb b a.
Proof. by destruct a, b. Qed.

Lemma Kind_eqb_eq (a b : Kind) : Kind_eqb a b = true <-> a = b.
Proof. destruct a, b; simpl; split; congruence. Qed.

(** Direct assignability does not depend on the direction. *)
Lemma directlyAssignable_sym (T V : Type_) :
  directlyAssignable T V = directlyAssignable V T.
Proof.
  unfold directlyAssignable.
  rewrite (Type_eqb_sym T V), (Kind_eqb_sym (kind T) (kind V)),
    (andb_comm (hasName T)), (Type_eqb_sym (underlying T)).
  reflexivity.
Qed.

(** When the target is not an interface, [t.AssignableTo(u)] and
    [u.AssignableTo(t)] agree on every [u] that is not an interface
    either. *)
Lemma AssignableTo_sym (t u : Type_) :
  kind t <> KInterface -> kind u <> KInterface ->
  AssignableTo t u = AssignableTo u t.
Proof.
  intros Ht Hu. unfold AssignableTo, implements.
  rewrite (directlyAssignable_sym u t).
  destruct (Kind_eqb (kind u) KInterface) eqn:E1;
    [by apply Kind_eqb_eq in E1|].
  destruct (Kind_eqb (kind t) KInterface) eqn:E2;
    [by apply Kind_eqb_eq in E2|].
  reflexivity.
Qed.

End reflect_facts.

(** ** Condition factories *)

Module client_facts.
Import client.

Section Facts.
Context {M F V : Type}.
Implicit Types (rc : gmap string M) (enc : string -> V).

(** The scan of [Generate] over a list of cached rows, given that the orm
    answers a cached row with the equality on its [_uuid]. *)
Lemma generateRows_scan (c : predicateCondFactory M F V) rc enc
    (l : list (string * M)) (acc : list (ovsdbCondition V)) :
  (forall uuid row, (uuid, row) ∈ l -> rc !! uuid = Some row) ->
  (forall uuid row, rc !! uuid = Some row ->
     newCondition (cache_orm (pred_cache c)) (pred_tableName c) (Some row) []
     = ([NewCondition "_uuid" ConditionEqual (enc uuid)], None)) ->
  generateRows c rc l.*1 acc
  = Return (acc ++ map (uuidCondition enc)
                     (filter (fun kv => predicate c kv.2 = true) l)) None.
Proof.
  intros Hin Hcond. revert acc.
  induction l as [|[uuid row] l IH]; intros acc; simpl.
  - by rewrite app_nil_r.
  - assert (Hrow : rc !! uuid = Some row) by (apply Hin; left).
    unfold Row. rewrite Hrow. simpl.
    assert (Hl : forall u r, (u, r) ∈ l -> rc !! u = Some r)
      by (intros u r ?; apply Hin; by right).
    destruct (predicate c row) eqn:Hp.
    + rewrite (Hcond _ _ Hrow), (IH Hl).
      rewrite filter_cons_True by done. simpl.
      by rewrite <- app_assoc.
    + rewrite (IH Hl). rewrite filter_cons_False; [done|].
      simpl. congruence.
Qed.

(** The rows that a filter keeps in the listing of a map are as many as the
    entries the same filter keeps in the map. *)
Lemma length_filter_map_to_list (P : string * M -> Prop)
    `{!forall x, Decision (P x)} rc :
  length (filter P (map_to_list rc)) = size (filter P rc).
Proof.
  rewrite <- length_map_to_list.
  apply Permutation_length, NoDup_Permutation.
  - apply NoDup_filter, NoDup_map_to_list.
  - apply NoDup_map_to_list.
  - intros [k x]. rewrite list_elem_of_filter, !elem_of_map_to_list,
      map_lookup_filter_Some. tauto.
Qed.

(** C1 (amended).  A predicate factory whose table has no entry in the cache
    fails with [ErrNotFound].  When the table has an entry, and the orm
    answers every cached row with the equality on its [_uuid], [Generate]
    returns no error and exactly one [_uuid] equality per cached row that
    satisfies the predicate: as many conditions as matching rows (none when
    no row matches), each for a distinct row. *)
Theorem predicateCondFactory_Generate_fanout (c : predicateCondFactory M F V) :
  (TableCache_Table (pred_cache c) (pred_tableName c) = None ->
   Generate c = Return [] (Some ErrNotFound))
  /\ (forall rc enc,
        TableCache_Table (pred_cache c) (pred_tableName c) = Some rc ->
        (forall uuid row, rc !! uuid = Some row ->
           newCondition (cache_orm (pred_cache c)) (pred_tableName c) (Some row) []
           = ([NewCondition "_uuid" ConditionEqual (enc uuid)], None)) ->
        let matching := filter (fun kv => predicate c kv.2 = true) (map_to_list rc) in
        Generate c = Return (map (uuidCondition enc) matching) None
        /\ length (map (uuidCondition enc) matching)
           = size (filter (fun kv => predicate c kv.2 = true) rc)
        /\ NoDup matching.*1).
Proof.
  split.
  - intros Hnone. simpl. unfold predicateCondFactory_Generate. by rewrite Hnone.
  - intros rc enc Hsome Hcond matching. split; [|split].
    + simpl. unfold predicateCondFactory_Generate, Rows. rewrite Hsome.
      rewrite (generateRows_scan c rc enc); [done| |done].
      intros uuid row. apply elem_of_map_to_list.
    + rewrite length_map. apply length_filter_map_to_list.
    + apply (sublist_NoDup matching.*1 (map_to_list rc).*1).
      * apply NoDup_fst_map_to_list.
      * apply fmap_sublist, sublist_filter.
Qed.

(** C3 (amended).  Constructing an index condition factory never fails,
    whatever the model and the field references: the factory holds the
    table, the model and the field references as they were given, and the
    index is only chosen when the factory is used, by the orm's
    [newCondition] and [equalFields], whose error it then returns. *)
Theorem newIndexCondition_total (o : orm M F V) (table : string) (model : Model)
    (fields : list F) :
  exists f, newIndexCondition o table model fields = (f, None)
    /\ idx_fields f = fields /\ idx_model f = model /\ Table f = table
    /\ Generate f
       = (let '(condition, err) := newCondition o table model fields in
          match err with
          | Some e => Return [] (Some e)
          | None => Return condition None
          end)
    /\ forall m, Matches f m
                = (let '(b, err) := equalFields o table model m fields in Return b err).
Proof. eexists. repeat split. Qed.

(** C4 (amended).  An Error factory hands out the error it stores, the same
    on every call: [Matches] returns false with it and [Generate] returns no
    condition with it.  The factory that [newErrorConditionFactory] builds
    from an error [e] stores a new error, whose text is [e]'s text after
    the prefix ["conditionerror: "]. *)
Theorem errorConditionFactory_error (f : errorConditionFactory) (e : error)
    (m : Model (M:=M)) :
  Matches (V:=V) f m = Return false (Some (err f))
  /\ Generate (M:=M) (V:=V) f = Return [] (Some (err f))
  /\ err (newErrorConditionFactory e) = errors_New ("conditionerror: " ++ Error e)
  /\ err (newErrorConditionFactory e) <> e.
Proof.
  repeat split. destruct e as [msg]. simpl. intros [= Heq].
  apply (f_equal String.length) in Heq.
  rewrite string_length_append in Heq. simpl in Heq. lia.
Qed.

(** C6.  An Explicit factory never matches locally: [Matches] returns false
    with the error [explicit conditions cannot be evaluated locally], for
    every stored condition list and every candidate row.  [Generate]
    returns the stored encoded conditions, and a factory built from
    conditions that all encode holds their encodings in the caller's
    order. *)
Theorem explicitCondFactory_contract (o : orm M F V) (table : string) (model : Model)
    (conds : list (F * ConditionFunction * V)) (encs : list (ovsdbCondition V)) :
  Forall2 (fun cond wire => newExplicit o table model cond = (wire, None)) conds encs ->
  (forall (f : explicitCondFactory M F V) m,
     Matches f m = Return false (Some ErrExplicitLocalMatch))
  /\ (forall f : explicitCondFactory M F V,
        exp_err f = None -> Generate f = Return (exp_conditions f) None)
  /\ Generate (newExplicitConditionFactory o table model conds).1 = Return encs None
  /\ length encs = length conds.
Proof.
  intros Henc. split; [done|]. split.
  { intros f Hf. simpl. unfold explicitCondFactory_Generate. by rewrite Hf. }
  split; [|symmetry; by eapply Forall2_length].
  assert (Hgen : forall acc,
    encodeConditions o table model conds acc = (acc ++ encs, None)).
  { induction Henc as [|cond wire conds encs Hc _ IH]; intros acc; simpl.
    - by rewrite app_nil_r.
    - rewrite Hc, IH. by rewrite <- app_assoc. }
  unfold newExplicitConditionFactory. rewrite Hgen. reflexivity.
Qed.

(** C10.  The [Table] of an Error factory is the empty string, whatever
    error it holds. *)
Theorem errorConditionFactory_Table_empty (f : errorConditionFactory) (e : error) :
  Table (M:=M) (V:=V) f = ""
  /\ Table (M:=M) (V:=V) (newErrorConditionFactory e) = "".
Proof. split; reflexivity. Qed.

End Facts.
End client_facts.

(** ** The schema of the spec *)

Module schema_facts.
Import reflect schema.

(** In the schema modelled from the spec, the zero value of the native type
    of a column is a default value of the column. *)
Lemma isDefaultValue_Zero (c : ColumnType) :
  isDefaultValue c (Some (nativeType c, Zero (nativeType c))) = true.
Proof. destruct c as [[]|[]|[] []]; reflexivity. Qed.

Lemma nativeType_not_Interface (c : ColumnType) : kind (nativeType c) <> KInterface.
Proof. destruct c as [[]|[]|[] []]; discriminate. Qed.

End schema_facts.

(** ** The mapper *)

Module mapper_facts.
Import reflect ovsdb mapper reflect_facts.

Section Facts.
Context `{Schema}.
Implicit Types (mi : MapperInfo) (st : store) (tbl : TableSchema)
  (fs : list StructField) (f : StructField) (col : string).

Lemma underlying_not_Named (t : Type_) n u : underlying t <> Named n u.
Proof. induction t; simpl; congruence. Qed.

Lemma kind_Ptr (t : Type_) : kind t = KPtr <-> exists e, underlying t = Ptr e.
Proof.
  unfold kind. destruct (underlying t) eqn:E; split;
    try discriminate; try (intros [? ?]; discriminate); eauto.
Qed.

Lemma kind_Struct (t : Type_) : kind t = KStruct <-> exists fs, underlying t = Struct fs.
Proof.
  unfold kind. destruct (underlying t) eqn:E; split;
    try discriminate; try (intros [? ?]; discriminate); eauto.
Qed.

(** *** [NewMapperInfo] *)

Lemma mapFields_ok tbl objType fs (acc : gmap string string) :
  Forall (fieldMatches tbl) fs ->
  mapFields tbl objType fs acc
  = Ok (foldl (fun acc f => <[ovsColumn f := Name f]> acc) acc
          (filter (fun f => ovsColumn f <> "") fs)).
Proof.
  intros Hfs. revert acc. induction Hfs as [|f fs Hf _ IH]; intros acc; [done|].
  simpl. fold (ovsColumn f).
  destruct (String.eqb (ovsColumn f) "") eqn:Etag.
  - apply String.eqb_eq in Etag. rewrite IH.
    rewrite filter_cons_False; [done|]. tauto.
  - apply String.eqb_neq in Etag.
    destruct Hf as [?|(c & Hc & Hty)]; [done|].
    rewrite Hc, Hty, Type_eqb_refl. simpl. rewrite IH.
    by rewrite filter_cons_True.
Qed.

Lemma mapFields_err tbl objType (pre post : list StructField) f
    (acc : gmap string string) :
  Forall (fieldMatches tbl) pre -> ovsColumn f <> "" ->
  mapFields tbl objType (pre ++ f :: post) acc
  = match Column tbl (ovsColumn f) with
    | None =>
        Err (ErrMapper objType (Name f) (FieldType f) (ovsColumn f) ColumnDoesNotExist)
    | Some c =>
        if Type_eqb (NativeType c) (FieldType f)
        then mapFields tbl objType post
               (<[ovsColumn f := Name f]>
                  (foldl (fun acc f => <[ovsColumn f := Name f]> acc) acc
                     (filter (fun f => ovsColumn f <> "") pre)))
        else Err (ErrMapper objType (Name f) (FieldType f) (ovsColumn f)
                    (WrongTypeExpects (NativeType c)))
    end.
Proof.
  intros Hpre Htag. revert acc.
  induction Hpre as [|g pre Hg _ IH]; intros acc; simpl.
  - fold (ovsColumn f). apply String.eqb_neq in Htag. rewrite Htag.
    destruct (Column tbl (ovsColumn f)) as [c|]; [|done].
    by destruct (Type_eqb (NativeType c) (FieldType f)).
  - fold (ovsColumn g).
    destruct (String.eqb (ovsColumn g) "") eqn:Etag.
    + apply String.eqb_eq in Etag. rewrite IH.
      rewrite filter_cons_False; [done|]. tauto.
    + apply String.eqb_neq in Etag.
      destruct Hg as [?|(c & Hc & Hty)]; [done|].
      rewrite Hc, Hty, Type_eqb_refl. simpl. rewrite IH.
      by rewrite filter_cons_True.
Qed.

Lemma mapFields_Ok_inv tbl objType fs (acc m : gmap string string) :
  mapFields tbl objType fs acc = Ok m -> Forall (fieldMatches tbl) fs.
Proof.
  revert acc. induction fs as [|f fs IH]; intros acc Hm; [constructor|].
  simpl in Hm. fold (ovsColumn f) in Hm.
  destruct (String.eqb (ovsColumn f) "") eqn:Etag.
  - apply String.eqb_eq in Etag. constructor; [by left|]. eauto.
  - destruct (Column tbl (ovsColumn f)) as [c|] eqn:Hc; [|done].
    destruct (Type_eqb (NativeType c) (FieldType f)) eqn:Hty; simpl in Hm; [|done].
    apply Type_eqb_eq in Hty. constructor; [right; eauto|].
    eapply IH, Hm.
Qed.

(** Every entry of the column map comes from a tagged field. *)
Lemma columnMap_lookup fs col fieldName :
  columnMap fs !! col = Some fieldName ->
  col <> "" /\ exists f, f ∈ fs /\ ovsColumn f = col /\ Name f = fieldName.
Proof.
  unfold columnMap.
  assert (Hgen : forall (l : list StructField) (acc : gmap string string),
    foldl (fun acc f => <[ovsColumn f := Name f]> acc) acc l !! col = Some fieldName ->
    acc !! col = Some fieldName
    \/ exists f, f ∈ l /\ ovsColumn f = col /\ Name f = fieldName).
  { induction l as [|g l IH]; intros acc Hl; simpl in Hl; [by left|].
    destruct (IH _ Hl) as [Hacc|(f & Hf & ? & ?)].
    - destruct (decide (ovsColumn g = col)) as [<-|Hne].
      + rewrite lookup_insert_eq in Hacc. injection Hacc as <-.
        right. exists g. split; [left|done].
      + rewrite lookup_insert_ne in Hacc by done. by left.
    - right. exists f. split; [by right|done]. }
  intros Hl. destruct (Hgen _ _ Hl) as [Hacc|(f & Hf & <- & <-)].
  { by rewrite lookup_empty in Hacc. }
  apply list_elem_of_filter in Hf as [Htag Hf]. eauto.
Qed.

(** C5.  Over a table schema and a non-nil pointer to a struct,
    [NewMapperInfo] succeeds exactly when every tagged field names a column
    of the schema whose native type is the field's type.  The mapper it
    returns maps the columns of the tagged fields to their names, so that an
    untagged field appears in no entry.  Otherwise the first tagged field
    at fault decides the error: [Column does not exist in schema] when its
    column is absent, [Wrong type] when the native type differs. *)
Theorem NewMapperInfo_spec tbl (t e : Type_) (a : Z) fs :
  underlying t = Ptr e -> underlying e = Struct fs -> a <> 0%Z ->
  let o := Some (t, DPtr a) in
  ((exists mi, NewMapperInfo tbl o = Ok mi) <-> Forall (fieldMatches tbl) fs)
  /\ (forall mi, NewMapperInfo tbl o = Ok mi ->
        fields mi = columnMap fs /\ obj mi = o /\ table mi = tbl)
  /\ (forall col fieldName, columnMap fs !! col = Some fieldName ->
        col <> "" /\ exists f, f ∈ fs /\ ovsColumn f = col /\ Name f = fieldName)
  /\ (forall pre f post,
        fs = pre ++ f :: post -> Forall (fieldMatches tbl) pre -> ovsColumn f <> "" ->
        (Column tbl (ovsColumn f) = None ->
         NewMapperInfo tbl o
         = Err (ErrMapper e (Name f) (FieldType f) (ovsColumn f) ColumnDoesNotExist))
        /\ (forall c, Column tbl (ovsColumn f) = Some c -> NativeType c <> FieldType f ->
            NewMapperInfo tbl o
            = Err (ErrMapper e (Name f) (FieldType f) (ovsColumn f)
                     (WrongTypeExpects (NativeType c))))).
Proof.
  intros Ht He Ha o.
  assert (Hnew : NewMapperInfo tbl o
                 = (flds ← mapFields tbl e fs ∅;
                    Ok {| fields := flds; obj := o; table := tbl |})).
  { unfold NewMapperInfo, o. rewrite Ht. simpl.
    destruct (Z.eqb_spec a 0); [done|]. by rewrite He. }
  split; [split|split; [|split]].
  - intros [mi Hmi]. rewrite Hnew in Hmi.
    destruct (mapFields tbl e fs ∅) as [m| |] eqn:Hm; try discriminate.
    by eapply mapFields_Ok_inv.
  - intros Hfs. rewrite Hnew, (mapFields_ok _ _ _ _ Hfs). simpl. eauto.
  - intros mi Hmi. rewrite Hnew in Hmi.
    destruct (mapFields tbl e fs ∅) as [m| |] eqn:Hm; try discriminate.
    pose proof (mapFields_Ok_inv _ _ _ _ _ Hm) as Hfs.
    rewrite (mapFields_ok _ _ _ _ Hfs) in Hm.
    injection Hm as <-. simpl in Hmi. injection Hmi as <-. done.
  - apply columnMap_lookup.
  - intros pre f post -> Hpre Htag. rewrite Hnew, (mapFields_err _ _ _ _ _ _ Hpre Htag).
    split.
    + by intros ->.
    + intros c -> Hty. apply Type_eqb_neq in Hty. by rewrite Hty.
Qed.

(** *** [getValidIndexes] *)

Lemma NewMapperInfo_Ok_inv tbl (o : iface) mi :
  NewMapperInfo tbl o = Ok mi ->
  exists t e a fs,
    o = Some (t, DPtr a) /\ underlying t = Ptr e /\ underlying e = Struct fs
    /\ a <> 0%Z /\ Forall (fieldMatches tbl) fs
    /\ fields mi = columnMap fs /\ obj mi = o /\ table mi = tbl.
Proof.
  intros Hmi. destruct o as [[t d]|]; [|done]. simpl in Hmi.
  destruct (underlying t) as [| | | | | |e| | |] eqn:Ht; try done.
  destruct (Z.eqb_spec (pointerOf d) 0) as [|Ha]; [done|].
  destruct (underlying e) as [| | | | | | | |fs|] eqn:He; try done.
  destruct d as [| | | | | |a| |]; try done. simpl in Ha.
  destruct (mapFields tbl e fs ∅) as [m| |] eqn:Hm; try discriminate.
  pose proof (mapFields_Ok_inv _ _ _ _ _ Hm) as Hfs.
  rewrite (mapFields_ok _ _ _ _ Hfs) in Hm. injection Hm as <-.
  simpl in Hmi. injection Hmi as <-.
  exists t, e, a, fs. by repeat split.
Qed.

Lemma FieldByName_Some fs (name : string) :
  (exists f, f ∈ fs /\ Name f = name) ->
  exists g, FieldByName fs name = Some g /\ Name g = name.
Proof.
  intros (f & Hf & Hname). unfold FieldByName.
  destruct (List.find _ fs) as [g|] eqn:Hfind.
  - apply List.find_some in Hfind as [_ Hg]. apply String.eqb_eq in Hg. eauto.
  - apply list_elem_of_In in Hf. apply (List.find_none _ _ Hfind f) in Hf.
    apply String.eqb_neq in Hf. done.
Qed.

(** A mapper built by [NewMapperInfo] over exported tagged fields reads
    every column it maps. *)
Lemma FieldByColumn_mapped tbl (o : iface) mi st col :
  NewMapperInfo tbl o = Ok mi ->
  Forall (fun f => ovsColumn f <> "" -> exported (Name f) = true) (structFields o) ->
  hasColumn mi col = true ->
  exists field, FieldByColumn mi st col = Ok field.
Proof.
  intros Hmi Hexp Hcol.
  destruct (NewMapperInfo_Ok_inv _ _ _ Hmi)
    as (t & e & a & fs & -> & Ht & He & Ha & _ & Hflds & Hobj & _).
  unfold hasColumn in Hcol. unfold FieldByColumn.
  destruct (fields mi !! col) as [fieldName|] eqn:Hlook; [|done].
  rewrite Hflds in Hlook.
  apply columnMap_lookup in Hlook as (Hne & f & Hf & Htag & Hname).
  destruct (FieldByName_Some fs fieldName) as (g & Hg & Hgname); [by eauto|].
  rewrite Hobj. simpl. rewrite Ht, He, (proj2 (Z.eqb_neq a 0) Ha), Hg. simpl.
  unfold structFields in Hexp. rewrite Ht, He in Hexp.
  rewrite Forall_forall in Hexp. specialize (Hexp f Hf).
  rewrite Hgname, <- Hname, Hexp by congruence. simpl. eauto.
Qed.

Lemma populatedb_spec mi st col :
  populatedb mi st col = true <-> populated mi st col.
Proof.
  unfold populatedb, populated. split.
  - destruct (fields mi !! col) as [fieldName|]; [|done].
    destruct (Column (table mi) col) as [cs|]; [|done].
    destruct (FieldByColumn mi st col) as [field| |]; [|done|done].
    intros [Hv Hd]%andb_true_iff.
    apply bool_decide_eq_true_1 in Hv. apply negb_true_iff in Hd.
    by exists fieldName, cs, field.
  - intros (fieldName & cs & field & -> & -> & -> & Hv & Hd).
    by rewrite Hd, bool_decide_eq_true_2.
Qed.

Lemma forallb_populated mi st (idx : list string) :
  forallb (populatedb mi st) idx = true <-> Forall (populated mi st) idx.
Proof.
  induction idx as [|col idx IH]; simpl.
  - split; [constructor|done].
  - rewrite andb_true_iff, Forall_cons, IH, populatedb_spec. done.
Qed.

(** The two loops, when no read panics. *)
Lemma indexColumns_spec mi st (idx : list string) :
  (forall col, hasColumn mi col = true -> exists field, FieldByColumn mi st col = Ok field) ->
  indexColumns mi st idx = Ok (forallb (populatedb mi st) idx).
Proof.
  intros Hread. induction idx as [|col idx IH]; [done|].
  simpl. unfold populatedb at 1. specialize (Hread col). unfold hasColumn in *.
  destruct (fields mi !! col) as [fieldName|]; [|done]. simpl.
  destruct (Column (table mi) col) as [cs|]; [|done].
  destruct Hread as [field ->]; [done|]. simpl.
  destruct (bool_decide (is_Some field)); simpl; [|done].
  by destruct (IsDefaultValue cs field).
Qed.

Lemma indexLoop_spec mi st (possible valid : list (list string)) :
  (forall col, hasColumn mi col = true -> exists field, FieldByColumn mi st col = Ok field) ->
  indexLoop mi st possible valid
  = Ok (valid ++ List.filter (forallb (populatedb mi st)) possible).
Proof.
  intros Hread. revert valid.
  induction possible as [|idx possible IH]; intros valid; simpl.
  - by rewrite app_nil_r.
  - rewrite (indexColumns_spec _ _ _ Hread). simpl. rewrite IH.
    destruct (forallb (populatedb mi st) idx); [|done].
    by rewrite <- app_assoc.
Qed.

(** Over any schema, for a row value with exported tagged fields:
    [getValidIndexes] returns, without error, the candidates that pass the
    test of the inner loop, in their order. *)
Lemma getValidIndexes_spec tbl (o : iface) mi st :
  NewMapperInfo tbl o = Ok mi ->
  Forall (fun f => ovsColumn f <> "" -> exported (Name f) = true) (structFields o) ->
  getValidIndexes mi st
  = Ok (List.filter (forallb (populatedb mi st)) ([ ["_uuid"] ] ++ Indexes tbl)).
Proof.
  intros Hmi Hexp.
  unfold getValidIndexes.
  destruct (NewMapperInfo_Ok_inv _ _ _ Hmi)
    as (_ & _ & _ & _ & _ & _ & _ & _ & _ & _ & _ & ->).
  rewrite indexLoop_spec; [done|].
  intros col. by eapply FieldByColumn_mapped.
Qed.

(** A row whose [_uuid] is populated has [_uuid] as its first valid index,
    which is the index the orm then builds its condition on. *)
Lemma getValidIndexes_uuid_first tbl (o : iface) mi st :
  NewMapperInfo tbl o = Ok mi ->
  Forall (fun f => ovsColumn f <> "" -> exported (Name f) = true) (structFields o) ->
  populated mi st "_uuid" ->
  exists rest, getValidIndexes mi st = Ok (["_uuid"] :: rest).
Proof.
  intros Hmi Hexp Huuid. unfold getValidIndexes.
  rewrite indexLoop_spec by (intros col; by eapply FieldByColumn_mapped).
  simpl. apply populatedb_spec in Huuid. rewrite Huuid. simpl. eauto.
Qed.

(** *** Rejection of what is not a pointer to a struct *)

(** X22.  Every non-nil argument that is not a pointer, or is a nil pointer,
    or points to something else than a struct, is refused with a wrong-type
    error; the fields are not looked at. *)
Lemma NewMapperInfo_rejects tbl (t : Type_) (d : Data) :
  kind t <> KPtr \/ pointerOf d = 0%Z
  \/ (forall e, underlying t = Ptr e -> kind e <> KStruct) ->
  NewMapperInfo tbl (Some (t, d))
  = Err (ErrWrongType "NewMapperInfo" "pminter to a struct" (Some (t, d))).
Proof.
  intros Hbad. simpl.
  destruct (underlying t) as [| | | | | |e| | |] eqn:Ht; try done.
  destruct (Z.eqb_spec (pointerOf d) 0) as [|Ha]; [done|].
  destruct (underlying e) as [| | | | | | | |fs|] eqn:He; try done.
  destruct Hbad as [Hk|[?|Hs]]; [|done|].
  - destruct Hk. apply kind_Ptr. eauto.
  - destruct (Hs e eq_refl). apply kind_Struct. eauto.
Qed.

(** C9.  [NewMapperInfo] does not answer the nil interface value with a
    wrong-type error: [reflect.ValueOf(nil)] is the zero Value, on which
    [Type()] panics before the kind is compared. *)
Theorem NewMapperInfo_nil_panics tbl :
  NewMapperInfo tbl None = Panic "reflect: call of reflect.Value.Type on zero Value".
Proof. reflexivity. Qed.

(** *** [SetField] *)

Lemma elemFieldByName_mapped tbl (o : iface) mi col fieldName :
  NewMapperInfo tbl o = Ok mi ->
  fields mi !! col = Some fieldName ->
  exists a f, elemFieldByName (obj mi) fieldName = Ok (Some (a, f))
              /\ Name f = fieldName.
Proof.
  intros Hmi Hlook.
  destruct (NewMapperInfo_Ok_inv _ _ _ Hmi)
    as (t & e & a & fs & -> & Ht & He & Ha & _ & Hflds & Hobj & _).
  rewrite Hflds in Hlook.
  apply columnMap_lookup in Hlook as (Hne & f & Hf & Htag & Hname).
  destruct (FieldByName_Some fs fieldName) as (g & Hg & Hgname); [by eauto|].
  exists a, g. rewrite Hobj. simpl.
  by rewrite Ht, He, (proj2 (Z.eqb_neq a 0) Ha), Hg.
Qed.

Lemma SetField_unmapped mi st col (value : iface) :
  fields mi !! col = None ->
  SetField mi st col value
  = (Err (Errorf ("column " ++ col ++ " not found in orm info")), st).
Proof. intros Hlook. unfold SetField. by rewrite Hlook. Qed.

(** A returned error leaves the memory as it was. *)
Lemma SetField_Err_store mi st st' col (value : iface) (e : error) :
  SetField mi st col value = (Err e, st') -> st' = st.
Proof.
  unfold SetField, Set_.
  repeat (case_match; try done); congruence.
Qed.

(** X21.  For a value that has a type, and an exported field whose type is
    not an interface, [SetField] stores the value when its type is assignable to
    the field's, and returns the incompatible-assignment error otherwise. *)
Lemma SetField_typed mi st col fieldName (a : Z) f (vt : Type_) (d : Data) :
  fields mi !! col = Some fieldName ->
  elemFieldByName (obj mi) fieldName = Ok (Some (a, f)) ->
  exported (Name f) = true ->
  kind (FieldType f) <> KInterface -> kind vt <> KInterface ->
  SetField mi st col (Some (vt, d))
  = if AssignableTo vt (FieldType f)
    then (Ok tt, <[(a, Name f) := d]> st)
    else (Err (ErrNotAssignable col (Some (vt, d)) fieldName (FieldType f)), st).
Proof.
  intros Hlook Helem Hexp Hf Hv. unfold SetField, Set_.
  rewrite Hlook, Helem. simpl.
  rewrite (AssignableTo_sym (FieldType f) vt Hf Hv), Hexp. simpl.
  unfold AssignableTo, implements.
  destruct (Kind_eqb (kind (FieldType f)) KInterface) eqn:E;
    [by apply Kind_eqb_eq in E|].
  rewrite orb_false_r. by destruct (directlyAssignable (FieldType f) vt).
Qed.

End Facts.

(** C7.  [SetField] on a mapped column with the nil interface value
    neither returns an error nor sets the field: [reflect.TypeOf(nil)] is
    the nil type, which [AssignableTo] refuses with a panic. *)
Theorem SetField_nil_panics :
  NewMapperInfo (H:=schema.spec_schema) fixtures.Logical_Switch_Port fixtures.lspPtr
  = Ok fixtures.lspMapper
  /\ SetField fixtures.lspMapper fixtures.byIndex "name" None
     = (Panic "reflect: nil type passed to Type.AssignableTo", fixtures.byIndex).
Proof. split; vm_compute; reflexivity. Qed.

End mapper_facts.

(** ** Mutations *)

Module utf8_facts.
Import mutation.

Lemma coerce_cons (c : Ascii.ascii) (s : string) :
  coerce (String c s)
  = match runeLen (String c s) with
    | Some n => String c (coerceFrom (Nat.pred n) s)
    | None =>
        String (Ascii.ascii_of_N 239)
          (String (Ascii.ascii_of_N 191) (String (Ascii.ascii_of_N 189) (coerce s)))
    end.
Proof. reflexivity. Qed.

Lemma coerceFrom_app (p t : string) :
  coerceFrom (String.length p) (p ++ t) = (p ++ coerce t)%string.
Proof. induction p as [|c p IH]; [done|]. simpl. by rewrite IH. Qed.

(** A well-formed encoding is some bytes at the head of the string, and is
    found whatever follows them. *)
Lemma runeLen_Some (s : string) (n : nat) :
  runeLen s = Some n ->
  exists c p t,
    s = String c (p ++ t) /\ S (String.length p) = n
    /\ forall t', runeLen (String c (p ++ t')) = Some n.
Proof.
  destruct s as [|c0 s1]; [done|]. unfold runeLen.
  destruct (Ascii.N_of_ascii c0 <? 128)%N eqn:E1.
  { intros [= <-]. exists c0, "", s1. repeat split. intros t'. simpl. by rewrite E1. }
  destruct (Ascii.N_of_ascii c0 <? 194)%N eqn:E2; [done|].
  destruct (Ascii.N_of_ascii c0 <? 224)%N eqn:E3.
  { destruct s1 as [|c1 s2]; [done|].
    destruct (inRange 128 191 c1) eqn:R1; [|done].
    intros [= <-]. exists c0, (String c1 ""), s2. repeat split.
    intros t'. simpl. by rewrite E1, E2, E3, R1. }
  destruct (Ascii.N_of_ascii c0 <? 240)%N eqn:E4.
  { destruct s1 as [|c1 [|c2 s3]]; [done|done|].
    match goal with |- context [if ?b then Some 3 else None] => destruct b eqn:R1 end;
      [|done].
    intros [= <-]. exists c0, (String c1 (String c2 "")), s3. repeat split.
    intros t'. simpl. by rewrite E1, E2, E3, E4, R1. }
  destruct (Ascii.N_of_ascii c0 <? 245)%N eqn:E5; [|done].
  destruct s1 as [|c1 [|c2 [|c3 s4]]]; [done|done|done|].
  match goal with |- context [if ?b then Some 4 else None] => destruct b eqn:R1 end;
    [|done].
  intros [= <-]. exists c0, (String c1 (String c2 (String c3 ""))), s4. repeat split.
  intros t'. simpl. by rewrite E1, E2, E3, E4, E5, R1.
Qed.

(** The coercion, one encoding at a time. *)
Lemma coerce_step (s : string) :
  s = ""
  \/ exists q t,
       coerce s = (q ++ coerce t)%string /\ String.length t < String.length s
       /\ forall t', coerce (q ++ t') = (q ++ coerce t')%string.
Proof.
  destruct s as [|c0 s1]; [by left|]. right.
  rewrite coerce_cons.
  destruct (runeLen (String c0 s1)) as [n|] eqn:Hn.
  - apply runeLen_Some in Hn as (c & p & t & [= -> ->] & <- & Hany).
    exists (String c p), t. split; [|split].
    + simpl. by rewrite coerceFrom_app.
    + simpl. rewrite string_length_append. lia.
    + intros t'.
      change (String c p ++ t')%string with (String c (p ++ t')).
      rewrite coerce_cons, Hany. simpl. by rewrite coerceFrom_app.
  - exists (String (Ascii.ascii_of_N 239)
              (String (Ascii.ascii_of_N 191) (String (Ascii.ascii_of_N 189) ""))), s1.
    split; [done|]. split; [simpl; lia|]. intros t'. reflexivity.
Qed.

(** The coercion changes nothing in a string it made. *)
Lemma coerce_idemp (s : string) : coerce (coerce s) = coerce s.
Proof.
  remember (String.length s) as n eqn:Hlen.
  revert s Hlen. induction (lt_wf n) as [n _ IH]. intros s ->.
  destruct (coerce_step s) as [->|(q & t & Heq & Hlt & Hq)]; [done|].
  by rewrite Heq, Hq, (IH _ Hlt t eq_refl).
Qed.

(** Only an ASCII string is coerced to an ASCII string, and it is left as
    it is. *)
Lemma coerce_ASCII (s t : string) : isASCII t = true -> coerce s = t <-> s = t.
Proof.
  intros Ht. split.
  - revert t Ht. induction s as [|c s IH]; intros t Ht; [done|].
    rewrite coerce_cons.
    destruct (runeLen (String c s)) as [n|] eqn:Hn.
    + unfold runeLen in Hn.
      destruct (Ascii.N_of_ascii c <? 128)%N eqn:E1.
      * injection Hn as <-. simpl. intros <-. simpl in Ht. rewrite E1 in Ht.
        f_equal. by apply IH.
      * intros <-. simpl in Ht. by rewrite E1 in Ht.
    + by intros <-.
  - intros ->. induction t as [|c t IH]; [done|].
    simpl in Ht. apply andb_true_iff in Ht as [E1 Ht].
    rewrite coerce_cons. simpl. rewrite E1. simpl. f_equal. by apply IH.
Qed.

End utf8_facts.

Module mutation_facts.
Import strconv mutation utf8_facts.

Section Facts.
Context `{Strconv}.

Lemma MarshalJSON_array (m : Mutation) (doc : json) :
  Value m = Marshals doc ->
  MarshalJSON m
  = (JArray [JString (coerce (Column m)); JString (coerce (Mutator_ m)); doc], None).
Proof. unfold MarshalJSON, Marshal_slice. by intros ->. Qed.

Lemma MarshalJSON_refused (m : Mutation) (reason : string) :
  Value m = Refused reason -> MarshalJSON m = (JNull, Some (MarshalError reason)).
Proof. unfold MarshalJSON, Marshal_slice. by intros ->. Qed.

Lemma valueInterface_JArray (elems : list json) :
  valueInterface (JArray elems)
  = let '(v, err) := arrayInterface elems in (JArray v, err).
Proof. reflexivity. Qed.

Lemma arrayInterface_cons (e : json) (elems : list json) :
  arrayInterface (e :: elems)
  = ((valueInterface e).1 :: (arrayInterface elems).1,
     saveError (valueInterface e).2 (arrayInterface elems).2).
Proof.
  simpl. destruct (valueInterface e), (arrayInterface elems). reflexivity.
Qed.

Lemma arrayInterface_length (elems : list json) :
  length (arrayInterface elems).1 = length elems.
Proof.
  induction elems as [|e elems IH]; [done|].
  rewrite arrayInterface_cons. simpl. by rewrite IH.
Qed.

Lemma arrayInterface_app (pre post : list json) :
  arrayInterface (pre ++ post)
  = ((arrayInterface pre).1 ++ (arrayInterface post).1,
     saveError (arrayInterface pre).2 (arrayInterface post).2).
Proof.
  induction pre as [|e pre IH].
  - simpl. by destruct (arrayInterface post).
  - rewrite <- app_comm_cons, !arrayInterface_cons, IH. simpl.
    f_equal. by destruct (valueInterface e).2.
Qed.

Lemma valueInterface_JObject (members : list (string * json)) :
  valueInterface (JObject members)
  = let '(m, err) := objectInterface members [] None in (JObject m, err).
Proof. reflexivity. Qed.

Lemma arrayInterface_saved (elems : list json) :
  (arrayInterface elems).2 = None
  <-> Forall (fun e => (valueInterface e).2 = None) elems.
Proof.
  induction elems as [|e elems IH].
  - split; [constructor|done].
  - rewrite arrayInterface_cons, Forall_cons, <- IH. simpl.
    destruct (valueInterface e).2; simpl; [|tauto].
    split; [done|]. by intros [? _].
Qed.

Lemma objectInterface_saved (members m : list (string * json)) (saved : option error) :
  (objectInterface members m saved).2 = None
  <-> saved = None /\ Forall (fun kv => (valueInterface kv.2).2 = None) members.
Proof.
  revert m saved. induction members as [|[key e] members IH]; intros m saved; simpl.
  - split; [by split|tauto].
  - destruct (valueInterface e) as [x err] eqn:He. rewrite IH, Forall_cons. simpl.
    rewrite He. simpl.
    destruct saved, err; simpl; split; try tauto; by intros [? ?].
Qed.

(** The decoder saves no error exactly on the documents whose number
    literals are all in the range of float64. *)
Lemma valueInterface_saved (j : json) :
  (valueInterface j).2 = None <-> inFloat64 j = true.
Proof.
  induction j as [|b|literal|s|elems IH|members IH] using json_ind'; try done.
  - simpl. unfold convertNumber.
    by destruct (ParseFloat literal).
  - rewrite valueInterface_JArray.
    destruct (arrayInterface elems) as [v err] eqn:Hv. simpl.
    change err with (v, err).2. rewrite <- Hv, arrayInterface_saved. simpl.
    rewrite forallb_forall, Forall_forall. rewrite Forall_forall in IH.
    split; intros Hall e He.
    + apply IH; [by apply list_elem_of_In|]. by apply Hall, list_elem_of_In.
    + apply IH; [done|]. by apply Hall, list_elem_of_In.
  - rewrite valueInterface_JObject.
    destruct (objectInterface members [] None) as [m err] eqn:Hm. simpl.
    change err with (m, err).2. rewrite <- Hm, objectInterface_saved. simpl.
    rewrite forallb_forall, Forall_forall. rewrite Forall_forall in IH.
    split.
    + intros [_ Hall] kv Hkv.
      apply IH; [by apply list_elem_of_In|]. by apply Hall, list_elem_of_In.
    + intros Hall. split; [done|]. intros kv Hkv.
      apply IH; [done|]. by apply Hall, list_elem_of_In.
Qed.

Lemma arrayInterface_inFloat64 (elems : list json) :
  (arrayInterface elems).2 = None <-> forallb inFloat64 elems = true.
Proof.
  rewrite arrayInterface_saved, forallb_forall, Forall_forall.
  split; intros Hall e He.
  - apply valueInterface_saved. by apply Hall, list_elem_of_In.
  - apply valueInterface_saved. by apply Hall, list_elem_of_In.
Qed.

(** The decoder makes a string of a string only. *)
Lemma valueInterface_string (j : json) (s : string) :
  (valueInterface j).1 = JString s <-> exists s0, j = JString s0 /\ s = coerce s0.
Proof.
  split.
  - destruct j as [| |literal|s0|elems|members]; try done.
    + simpl. unfold convertNumber. by destruct (ParseFloat literal).
    + simpl. intros [= <-]. eauto.
    + rewrite valueInterface_JArray. by destruct (arrayInterface elems).
    + simpl. by match goal with |- context [let '(_, _) := ?x in _] => destruct x end.
  - by intros (s0 & -> & ->).
Qed.

Lemma coerce_mutators (s : string) : coerce s ∈ mutators <-> s ∈ mutators.
Proof.
  unfold mutators. rewrite !elem_of_cons, !elem_of_nil.
  rewrite !coerce_ASCII by reflexivity. done.
Qed.

Lemma switchMutator_accepts (m : Mutation) (mutator : Mutator) :
  is_Some (switchMutator m mutator) <-> mutator ∈ mutators.
Proof.
  unfold switchMutator, mutators.
  repeat match goal with
         | |- context [String.eqb mutator ?s] =>
             destruct (String.eqb_spec mutator s) as [->|?];
             [split; [intros _; apply list_elem_of_In; simpl; tauto
                     |intros _; eauto]|]
         end.
  split; [intros [? ?]; discriminate|].
  intros Hin. apply list_elem_of_In in Hin.
  unfold MutateOperationDelete, MutateOperationInsert, MutateOperationAdd,
    MutateOperationSubstract, MutateOperationMultiply, MutateOperationDivide,
    MutateOperationModulo in *.
  simpl in Hin. repeat destruct Hin as [Hin|Hin]; (congruence || contradiction).
Qed.

(** [UnmarshalJSON] on an array of three elements of which the first two
    are strings and the third is decoded as [x]. *)
Lemma UnmarshalJSON_array3 (m : Mutation) (column mutator : string) (value x : json) :
  valueInterface value = (x, None) ->
  UnmarshalJSON m (Some (JArray [JString column; JString mutator; value]))
  = let m1 := {| Column := coerce column; Mutator_ := Mutator_ m; Value := Value m |} in
    match switchMutator m1 (coerce mutator) with
    | Some m2 =>
        ({| Column := Column m2; Mutator_ := Mutator_ m2; Value := Marshals x |}, None)
    | None =>
        (m1, Some (ErrNotValidMutator (coerce mutator ++ " is not a valid mutator")))
    end.
Proof.
  intros Hx. unfold UnmarshalJSON, Unmarshal_slice.
  rewrite !arrayInterface_cons, Hx. reflexivity.
Qed.

(** An error that the decoder saves is the one returned, before the
    elements are looked at. *)
Lemma UnmarshalJSON_saved (m : Mutation) (elems : list json) (err : error) :
  (arrayInterface elems).2 = Some err ->
  UnmarshalJSON m (Some (JArray elems)) = (m, Some err).
Proof.
  intros Herr. unfold UnmarshalJSON, Unmarshal_slice.
  destruct (arrayInterface elems) as [v saved]. simpl in Herr. by subst.
Qed.

(** X23.  [UnmarshalJSON] returns no error exactly on the arrays of three
    elements whose first two are strings, the second a known mutator, and
    whose third holds no number literal out of the range of float64, for
    which the decoder returns an error. *)
Lemma UnmarshalJSON_accepts (m : Mutation) (b : option json) :
  (UnmarshalJSON m b).2 = None
  <-> exists column mutator value,
        b = Some (JArray [JString column; JString mutator; value])
        /\ mutator ∈ mutators
        /\ inFloat64 value = true.
Proof.
  split.
  - destruct b as [[| | | |elems|]|]; try done.
    destruct (arrayInterface elems) as [v [err|]] eqn:Hv.
    { rewrite (UnmarshalJSON_saved _ _ err) by (by rewrite Hv). done. }
    pose proof (arrayInterface_length elems) as Hlen. rewrite Hv in Hlen. simpl in Hlen.
    destruct elems as [|e0 [|e1 [|e2 [|? ?]]]];
      try (unfold UnmarshalJSON, Unmarshal_slice; rewrite Hv;
           by destruct v as [|? [|? [|? [|? ?]]]]).
    rewrite !arrayInterface_cons in Hv. simpl in Hv.
    injection Hv as <- Herr.
    destruct (valueInterface e0) as [x0 [?|]] eqn:H0; [done|].
    destruct (valueInterface e1) as [x1 [?|]] eqn:H1; [done|].
    destruct (valueInterface e2) as [x2 [?|]] eqn:H2; [done|]. clear Herr.
    unfold UnmarshalJSON, Unmarshal_slice.
    rewrite !arrayInterface_cons, H0, H1, H2. simpl.
    destruct x0 as [| | |column| |]; try done.
    destruct x1 as [| | |mutator| |]; try done.
    destruct (valueInterface_string e0 column) as [(c0 & -> & ->) _]; [by rewrite H0|].
    destruct (valueInterface_string e1 mutator) as [(m0 & -> & ->) _]; [by rewrite H1|].
    match goal with
    | |- context [switchMutator ?x (coerce m0)] =>
        pose proof (switchMutator_accepts x (coerce m0)) as Hacc;
        destruct (switchMutator x (coerce m0)) eqn:Hs; [|done]
    end.
    intros _. exists c0, m0, e2. split; [done|].
    split; [|apply valueInterface_saved; by rewrite H2].
    apply coerce_mutators, Hacc. eauto.
  - intros (column & mutator & value & -> & Hm & Hv).
    apply valueInterface_saved in Hv.
    destruct (valueInterface value) as [x err] eqn:Hx. simpl in Hv. subst err.
    rewrite (UnmarshalJSON_array3 _ _ _ _ _ Hx). cbv zeta.
    apply coerce_mutators in Hm.
    apply (switchMutator_accepts
             {| Column := coerce column; Mutator_ := Mutator_ m; Value := Value m |})
      in Hm as [m' ->].
    done.
Qed.

(** On such an array the method's copy of the receiver gets the column and
    the value; its mutator is only written for ["%="]. *)
Lemma UnmarshalJSON_receiver (m : Mutation) (column : string) (mutator : Mutator)
    (value x : json) :
  valueInterface value = (x, None) ->
  mutator ∈ mutators ->
  UnmarshalJSON m (Some (JArray [JString column; JString mutator; value]))
  = ({| Column := coerce column;
        Mutator_ := if String.eqb mutator MutateOperationModulo
                    then mutator else Mutator_ m;
        Value := Marshals x |}, None).
Proof.
  intros Hx Hm. rewrite (UnmarshalJSON_array3 _ _ _ _ _ Hx). cbv zeta.
  revert Hm. unfold mutators. rewrite !elem_of_cons, elem_of_nil.
  intros [->|[->|[->|[->|[->|[->|[->|[]]]]]]]]; reflexivity.
Qed.

(** The caller's mutation is never written. *)
Lemma Unmarshal_target (b : option json) (target : Mutation) :
  (Unmarshal b target).1 = target.
Proof. unfold Unmarshal. by destruct (UnmarshalJSON target b). Qed.

(** X24.  Marshalling and unmarshalling again, for every mutation with a
    known mutator whose value is marshalled to a document that the decoder
    reads without an error: no error, the target untouched, and in the
    method's copy the column coerced to UTF-8, the value as the decoder
    reads it, and a mutator that is the marshalled one only when that is
    ["%="]. *)
Lemma Unmarshal_MarshalJSON (m target : Mutation) (doc x : json) :
  Value m = Marshals doc ->
  valueInterface doc = (x, None) ->
  Mutator_ m ∈ mutators ->
  Unmarshal (Some (MarshalJSON m).1) target = (target, None)
  /\ (UnmarshalJSON target (Some (MarshalJSON m).1)).1
     = {| Column := coerce (Column m);
          Mutator_ := if String.eqb (Mutator_ m) MutateOperationModulo
                      then Mutator_ m else Mutator_ target;
          Value := Marshals x |}.
Proof.
  intros Hdoc Hx Hm. unfold Unmarshal.
  rewrite (MarshalJSON_array _ _ Hdoc). simpl fst.
  assert (Hc : coerce (Mutator_ m) = Mutator_ m).
  { revert Hm. unfold mutators. rewrite !elem_of_cons, elem_of_nil.
    intros [->|[->|[->|[->|[->|[->|[->|[]]]]]]]]; reflexivity. }
  rewrite (UnmarshalJSON_receiver target _ _ _ _ Hx) by (by rewrite Hc).
  by rewrite coerce_idemp, Hc.
Qed.

(** C8.  Marshalling yields the array [[column, mutator, value]], but
    unmarshalling it back does not yield the mutation: for the mutation
    [("ports", "insert", "x")] the call reports no error, leaves the target
    as it was, and even the method's own copy of the receiver misses the
    mutator. *)
Theorem Mutation_roundtrip_fails :
  let m := NewMutation "ports" MutateOperationInsert (JString "x") in
  let zero := NewMutation "" "" JNull in
  MarshalJSON m = (JArray [JString "ports"; JString "insert"; JString "x"], None)
  /\ Unmarshal (Some (MarshalJSON m).1) zero = (zero, None)
  /\ zero <> m
  /\ (UnmarshalJSON zero (Some (MarshalJSON m).1)).1
     = NewMutation "ports" "" (JString "x")
  /\ NewMutation "ports" "" (JString "x") <> m.
Proof. repeat split; discriminate. Qed.

End Facts.
End mutation_facts.

(** ** The statements at the data of the tests *)

Module examples.
Import reflect ovsdb mapper schema fixtures.

Lemma lspPtr_exported :
  Forall (fun f => ovsColumn f <> "" -> exported (Name f) = true) (structFields lspPtr).
Proof. repeat constructor. Qed.

(** [NewMapperInfo] accepts the row type of the tests. *)
Lemma NewMapperInfo_spec_witness :
  (17 <> 0)%Z
  /\ ((exists mi, NewMapperInfo Logical_Switch_Port
                    (Some (Ptr testLogicalSwitchPort, DPtr 17)) = Ok mi)
      <-> Forall (fieldMatches Logical_Switch_Port) (structFields lspPtr)).
Proof.
  split; [lia|].
  apply (mapper_facts.NewMapperInfo_spec (H:=spec_schema) Logical_Switch_Port
           (Ptr testLogicalSwitchPort) testLogicalSwitchPort 17 (structFields lspPtr));
    [reflexivity|reflexivity|lia].
Defined.

Example getValidIndexes_byUUID :
  getValidIndexes lspMapper byUUID = Ok [ ["_uuid"]; ["name"] ].
Proof. vm_compute. reflexivity. Qed.

Example getValidIndexes_byIndex :
  getValidIndexes lspMapper byIndex = Ok [ ["name"] ].
Proof. vm_compute. reflexivity. Qed.

Example SetField_string :
  SetField lspMapper byIndex "type" (Some (String, DString "router"))
  = (Ok tt, <[(4096%Z, "Type") := DString "router"]> byIndex).
Proof. vm_compute. reflexivity. Qed.

Example SetField_int_into_string :
  SetField lspMapper byIndex "name" (Some (Int, DInt 3))
  = (Err (ErrNotAssignable "name" (Some (Int, DInt 3)) "Name" String), byIndex).
Proof. vm_compute. reflexivity. Qed.

Import client.

(** C3, as stated, fails: a port with only [ExternalIds] set has no valid
    index, and the construction of the index factory over it, with no field
    reference, returns no error. *)
Lemma newIndexCondition_no_index :
  NewMapperInfo Logical_Switch_Port lspPtr = Ok lspMapper
  /\ getValidIndexes lspMapper byNonIndex = Ok []
  /\ (newIndexCondition noOrm "Logical_Switch_Port" lspPtr []).2 = None.
Proof. repeat split; vm_compute; reflexivity. Qed.

(** C1, as stated, fails: [Logical_Switch] has no entry in the cache, and
    [Generate] does not yield the empty list without error. *)
Lemma Generate_no_cache_entry :
  TableCache_Table uuidCache "Logical_Switch" = None
  /\ Generate switches = Return [] (Some ErrNotFound)
  /\ Generate switches <> Return [] None.
Proof. repeat split; discriminate. Qed.

Lemma predicateCondFactory_Generate_fanout_witness :
  TableCache_Table uuidCache "Logical_Switch_Port" = Some {[ "u0" := "u0"; "u1" := "u1" ]}
  /\ Generate enabledPorts
     = Return [NewCondition "_uuid" ConditionEqual "u1"] None.
Proof.
  split; [reflexivity|].
  destruct (client_facts.predicateCondFactory_Generate_fanout enabledPorts) as [_ Hsome].
  destruct (Hsome {[ "u0" := "u0"; "u1" := "u1" ]} (fun uuid => uuid)) as [-> _].
  - reflexivity.
  - intros uuid row Hlook.
    apply lookup_insert_Some in Hlook as [[<- <-]|[_ Hlook]]; [reflexivity|].
    apply lookup_singleton_Some in Hlook as [<- <-]. reflexivity.
  - vm_compute. reflexivity.
Defined.

(** C4, as stated, fails: the factory built from [ErrNotFound] does not hand
    out [ErrNotFound]. *)
Lemma newErrorConditionFactory_wraps :
  Generate (M:=string) (V:=string) (newErrorConditionFactory ErrNotFound)
  = Return [] (Some (errors_New "conditionerror: not found"))
  /\ Generate (M:=string) (V:=string) (newErrorConditionFactory ErrNotFound)
     <> Return [] (Some ErrNotFound)
  /\ Matches (M:=string) (V:=string) (newErrorConditionFactory ErrNotFound) None
     <> Return false (Some ErrNotFound).
Proof. repeat split; discriminate. Qed.

Lemma explicitCondFactory_contract_witness :
  Forall2 (fun cond wire => newExplicit uuidOrm "Logical_Switch_Port" None cond = (wire, None))
    [ (tt, ConditionNotEqual, "lsp0"); (tt, ConditionEqual, "foo") ]
    [ NewCondition "name" ConditionNotEqual "lsp0"; NewCondition "name" ConditionEqual "foo" ]
  /\ Generate (newExplicitConditionFactory uuidOrm "Logical_Switch_Port" None
                 [ (tt, ConditionNotEqual, "lsp0"); (tt, ConditionEqual, "foo") ]).1
     = Return [ NewCondition "name" ConditionNotEqual "lsp0";
                NewCondition "name" ConditionEqual "foo" ] None.
Proof.
  assert (Henc : Forall2
    (fun cond wire => newExplicit uuidOrm "Logical_Switch_Port" None cond = (wire, None))
    [ (tt, ConditionNotEqual, "lsp0"); (tt, ConditionEqual, "foo") ]
    [ NewCondition "name" ConditionNotEqual "lsp0"; NewCondition "name" ConditionEqual "foo" ])
    by (repeat constructor).
  split; [exact Henc|].
  exact (proj1 (proj2 (proj2
    (client_facts.explicitCondFactory_contract uuidOrm "Logical_Switch_Port" None _ _ Henc)))).
Defined.

End examples.

(** ** More on the mapper: reads, writes and field pointers *)

Module mapper_more.
Import reflect ovsdb mapper reflect_facts mapper_facts.

Section Facts.
Context `{Schema}.
Implicit Types (mi : MapperInfo) (st : store) (tbl : TableSchema)
  (fs : list StructField) (f : StructField) (col : string).

Lemma FieldByName_inv fs (name : string) f :
  FieldByName fs name = Some f -> Name f = name /\ f ∈ fs.
Proof.
  unfold FieldByName. intros Hfind.
  apply List.find_some in Hfind as [Hin Heq].
  apply String.eqb_eq in Heq. by apply list_elem_of_In in Hin.
Qed.

Lemma FieldByName_NoDup fs f :
  NoDup (Name <$> fs) -> f ∈ fs -> FieldByName fs (Name f) = Some f.
Proof.
  unfold FieldByName.
  induction fs as [|g fs IH]; intros Hnd Hf; [by apply elem_of_nil in Hf|].
  rewrite fmap_cons in Hnd. apply NoDup_cons in Hnd as [Hg Hnd].
  simpl. destruct (String.eqb_spec (Name g) (Name f)) as [Heq|Hne].
  - apply elem_of_cons in Hf as [->|Hf]; [done|].
    destruct Hg. rewrite Heq. by apply list_elem_of_fmap_2.
  - apply elem_of_cons in Hf as [->|Hf]; [done|]. by apply IH.
Qed.

Lemma elemFieldByName_inv (o : iface) (name : string) (a : Z) f :
  elemFieldByName o name = Ok (Some (a, f)) ->
  Name f = name /\ exists t d, o = Some (t, d) /\ a = pointerOf d.
Proof.
  destruct o as [[t d]|]; [|done]. simpl.
  destruct (underlying t) as [| | | | | |e| | |]; try done.
  destruct (pointerOf d =? 0)%Z; [done|].
  destruct (underlying e) as [| | | | | | | |fs|]; try done.
  destruct (FieldByName fs name) as [g|] eqn:Hg; [|done].
  simpl. intros [= <- <-]. apply FieldByName_inv in Hg as [? _]. eauto.
Qed.

Lemma foldl_columns_notin (l : list StructField) (acc : gmap string string) col :
  Forall (fun g => ovsColumn g <> col) l ->
  foldl (fun acc f => <[ovsColumn f := Name f]> acc) acc l !! col = acc !! col.
Proof.
  intros Hl. revert acc. induction Hl as [|g l Hg _ IH]; intros acc; [done|].
  simpl. rewrite IH. by rewrite lookup_insert_ne.
Qed.

Lemma columnMap_last (pre post : list StructField) f :
  ovsColumn f <> "" ->
  Forall (fun g => ovsColumn g <> ovsColumn f) post ->
  columnMap (pre ++ f :: post) !! ovsColumn f = Some (Name f).
Proof.
  intros Htag Hpost. unfold columnMap.
  rewrite filter_app, filter_cons_True by done.
  rewrite foldl_app. simpl. rewrite foldl_columns_notin.
  - apply lookup_insert_eq.
  - rewrite Forall_forall in Hpost. apply Forall_forall.
    intros g Hg. apply list_elem_of_filter in Hg as [_ Hg]. by apply Hpost.
Qed.

Lemma foldl_columns_is_Some (l : list StructField) (acc : gmap string string) col :
  Exists (fun h => ovsColumn h = col) l ->
  is_Some (foldl (fun acc f => <[ovsColumn f := Name f]> acc) acc l !! col).
Proof.
  revert acc. induction l as [|g l IH]; intros acc Hex; [by apply Exists_nil in Hex|].
  simpl. destruct (decide (Exists (fun h => ovsColumn h = col) l)) as [Hl|Hl].
  - by apply IH.
  - apply Exists_cons in Hex as [<-|?]; [|done].
    apply not_Exists_Forall in Hl; [|solve_decision].
    rewrite foldl_columns_notin by done. rewrite lookup_insert_eq. eauto.
Qed.

Lemma columnMap_is_Some fs f :
  f ∈ fs -> ovsColumn f <> "" -> is_Some (columnMap fs !! ovsColumn f).
Proof.
  intros Hf Htag. apply foldl_columns_is_Some, Exists_exists.
  exists f. split; [|done]. by apply list_elem_of_filter.
Qed.

(** What a mapper built by [NewMapperInfo] reads for a column it maps, when
    the names of the fields are distinct. *)
Lemma FieldByColumn_read tbl (t e : Type_) (a : Z) fs mi st col :
  NewMapperInfo tbl (Some (t, DPtr a)) = Ok mi ->
  underlying t = Ptr e -> underlying e = Struct fs ->
  Forall (fun f => ovsColumn f <> "" -> exported (Name f) = true) fs ->
  NoDup (Name <$> fs) ->
  hasColumn mi col = true ->
  exists f c,
    f ∈ fs /\ ovsColumn f = col /\ fields mi !! col = Some (Name f)
    /\ Column tbl col = Some c /\ NativeType c = FieldType f
    /\ FieldByColumn mi st col = Ok (box (FieldType f) (load st a f)).
Proof.
  intros Hmi Ht He Hexp Hnd Hcol.
  destruct (NewMapperInfo_Ok_inv _ _ _ Hmi)
    as (t' & e' & a' & fs' & [= <- <-] & Ht' & He' & Ha & Hfs & Hflds & Hobj & _).
  rewrite Ht in Ht'. injection Ht' as <-. rewrite He in He'. injection He' as <-.
  unfold hasColumn in Hcol.
  destruct (fields mi !! col) as [fieldName|] eqn:Hlook; [|done].
  pose proof Hlook as Hlook'. rewrite Hflds in Hlook'.
  apply columnMap_lookup in Hlook' as (Hne & f & Hf & Htag & <-).
  rewrite Forall_forall in Hfs. destruct (Hfs f Hf) as [?|(c & Hc & Hty)]; [congruence|].
  rewrite Htag in Hc.
  exists f, c. repeat split; try done.
  unfold FieldByColumn. rewrite Hlook, Hobj. simpl.
  rewrite Ht, He, (proj2 (Z.eqb_neq a 0) Ha), (FieldByName_NoDup _ _ Hnd Hf). simpl.
  rewrite Forall_forall in Hexp. rewrite (Hexp f Hf) by congruence. done.
Qed.

Lemma SetField_Ok_inv mi st st' col (vt : Type_) (d : Data) :
  SetField mi st col (Some (vt, d)) = (Ok tt, st') ->
  exists fieldName a f,
    fields mi !! col = Some fieldName
    /\ elemFieldByName (obj mi) fieldName = Ok (Some (a, f))
    /\ exported (Name f) = true
    /\ ((directlyAssignable (FieldType f) vt = true /\ st' = <[(a, Name f) := d]> st)
        \/ (kind (FieldType f) = KInterface
            /\ st' = <[(a, Name f) := DIface (Some (vt, d))]> st)).
Proof.
  unfold SetField, Set_. intros Hset.
  destruct (fields mi !! col) as [fieldName|]; [|done].
  destruct (elemFieldByName (obj mi) fieldName) as [[[a f]|]| |] eqn:Helem; try done.
  simpl in Hset.
  destruct (AssignableTo (FieldType f) vt); simpl in Hset; [|done].
  destruct (exported (Name f)) eqn:Hexp; simpl in Hset; [|done].
  exists fieldName, a, f. repeat split; try done.
  destruct (directlyAssignable (FieldType f) vt); [left; split; congruence|].
  unfold implements in Hset.
  destruct (Kind_eqb (kind (FieldType f)) KInterface) eqn:Hk; [|done].
  apply Kind_eqb_eq in Hk. right. split; congruence.
Qed.

Lemma Zero_Interface (t : Type_) : kind t = KInterface -> Zero t = DIface None.
Proof.
  unfold kind. induction t; simpl; try discriminate; auto.
Qed.

(** X1.  A read through a mapper built by [NewMapperInfo] is typed by the
    schema: the value that [FieldByColumn] returns for a mapped column has
    the native type of that column as its dynamic type. *)
Theorem FieldByColumn_native_type tbl (t e : Type_) (a : Z) fs mi st col
    (c : ColumnSchema) :
  NewMapperInfo tbl (Some (t, DPtr a)) = Ok mi ->
  underlying t = Ptr e -> underlying e = Struct fs ->
  Forall (fun f => ovsColumn f <> "" -> exported (Name f) = true) fs ->
  NoDup (Name <$> fs) ->
  Column tbl col = Some c -> kind (NativeType c) <> KInterface ->
  hasColumn mi col = true ->
  exists d, FieldByColumn mi st col = Ok (Some (NativeType c, d)).
Proof.
  intros Hmi Ht He Hexp Hnd Hc Hk Hcol.
  destruct (FieldByColumn_read _ _ _ _ _ _ st _ Hmi Ht He Hexp Hnd Hcol)
    as (f & c' & _ & _ & _ & Hc' & Hty & ->).
  rewrite Hc in Hc'. injection Hc' as <-. rewrite <- Hty.
  unfold box. destruct (Kind_eqb (kind (NativeType c)) KInterface) eqn:E.
  - by apply Kind_eqb_eq in E.
  - eauto.
Qed.

(** X2.  What [SetField] stores, [FieldByColumn] reads back: after a
    successful [SetField] of a column the column reads as the stored data at
    the field's type, and every column mapped to another field reads as it
    did before. *)
Theorem SetField_FieldByColumn mi st st' col (fieldName : string) (a : Z) f
    (vt : Type_) (d : Data) :
  fields mi !! col = Some fieldName ->
  elemFieldByName (obj mi) fieldName = Ok (Some (a, f)) ->
  kind (FieldType f) <> KInterface ->
  SetField mi st col (Some (vt, d)) = (Ok tt, st') ->
  FieldByColumn mi st' col = Ok (Some (FieldType f, d))
  /\ forall col' fieldName',
       fields mi !! col' = Some fieldName' -> fieldName' <> fieldName ->
       FieldByColumn mi st' col' = FieldByColumn mi st col'.
Proof.
  intros Hlook Helem Hk Hset.
  destruct (SetField_Ok_inv _ _ _ _ _ _ Hset)
    as (fieldName0 & a0 & f0 & Hlook0 & Helem0 & Hexp & Hst).
  rewrite Hlook in Hlook0. injection Hlook0 as <-.
  rewrite Helem in Helem0. injection Helem0 as <- <-.
  destruct Hst as [[_ ->]|[? _]]; [|done].
  destruct (elemFieldByName_inv _ _ _ _ Helem) as (Hname & t0 & d0 & Hobj & Ha).
  split.
  - unfold FieldByColumn. rewrite Hlook, Helem. simpl. rewrite Hexp. simpl.
    unfold load, store in *. rewrite lookup_insert_eq. simpl. unfold box.
    destruct (Kind_eqb (kind (FieldType f)) KInterface) eqn:E; [|done].
    by apply Kind_eqb_eq in E.
  - intros col' fieldName' Hlook' Hne. unfold FieldByColumn. rewrite Hlook'.
    destruct (elemFieldByName (obj mi) fieldName') as [[[a' g]|]| |] eqn:Helem';
      try done.
    destruct (elemFieldByName_inv _ _ _ _ Helem') as (Hname' & _).
    simpl. destruct (exported (Name g)); simpl; [|done].
    unfold load, store in *. rewrite lookup_insert_ne; [done|]. congruence.
Qed.


(** X4.  [getValidIndexes] never returns an error, for any mapper and any
    memory: a column is only read after [hasColumn] has found it, so the
    only error [FieldByColumn] can return is out of reach. *)
Theorem getValidIndexes_never_errs mi st :
  (exists valid, getValidIndexes mi st = Ok valid)
  \/ (exists msg, getValidIndexes mi st = Panic msg).
Proof.
  assert (Hread : forall col, hasColumn mi col = true ->
            (exists field, FieldByColumn mi st col = Ok field)
            \/ exists msg, FieldByColumn mi st col = Panic msg).
  { intros col. unfold hasColumn, FieldByColumn.
    destruct (fields mi !! col) as [fieldName|]; [intros _|done].
    unfold elemFieldByName. destruct (obj mi) as [[t d]|]; simpl; [|by eauto].
    destruct (underlying t) as [| | | | | |e| | |]; simpl; eauto.
    destruct (pointerOf d =? 0)%Z; simpl; [by eauto|].
    destruct (underlying e) as [| | | | | | | |fs|]; simpl; eauto.
    destruct (FieldByName fs fieldName) as [g|]; simpl; [|by eauto].
    destruct (exported (Name g)); simpl; eauto. }
  assert (Hcols : forall idx,
            (exists ok, indexColumns mi st idx = Ok ok)
            \/ exists msg, indexColumns mi st idx = Panic msg).
  { induction idx as [|col idx IH]; simpl; [by eauto|].
    destruct (hasColumn mi col) eqn:Hcol; simpl; [|by eauto].
    destruct (Column (table mi) col) as [cs|]; [|by eauto].
    destruct (Hread col Hcol) as [[field ->]|[msg ->]]; simpl; [|by eauto].
    destruct (negb (bool_decide (is_Some field)) || IsDefaultValue cs field); eauto. }
  unfold getValidIndexes. generalize ([["_uuid"]] ++ Indexes (table mi)).
  generalize (@nil (list string)).
  intros valid possible. revert valid.
  induction possible as [|idx possible IH]; intros valid; simpl; [by eauto|].
  destruct (Hcols idx) as [[ok ->]|[msg ->]]; simpl; eauto.
Qed.

(** X5.  Setting a column to a value that is not a default populates it: for
    a mapper built by [NewMapperInfo], after a successful [SetField] the
    column counts as populated, and when the column is [_uuid] the first
    valid index of the row is [_uuid]. *)
Theorem SetField_populates tbl (t e : Type_) (a : Z) fs mi st st' col
    (c : ColumnSchema) (vt : Type_) (d : Data) :
  NewMapperInfo tbl (Some (t, DPtr a)) = Ok mi ->
  underlying t = Ptr e -> underlying e = Struct fs ->
  Forall (fun f => ovsColumn f <> "" -> exported (Name f) = true) fs ->
  NoDup (Name <$> fs) ->
  Column tbl col = Some c -> kind (NativeType c) <> KInterface ->
  SetField mi st col (Some (vt, d)) = (Ok tt, st') ->
  IsDefaultValue c (Some (NativeType c, d)) = false ->
  populated mi st' col
  /\ (col = "_uuid" -> exists rest, getValidIndexes mi st' = Ok (["_uuid"] :: rest)).
Proof.
  intros Hmi Ht He Hexp Hnd Hc Hk Hset Hdef.
  destruct (SetField_Ok_inv _ _ _ _ _ _ Hset)
    as (fieldName & a0 & g & Hlook & Helem & _ & Hst).
  assert (Hcol : hasColumn mi col = true) by (unfold hasColumn; by rewrite Hlook).
  destruct (FieldByColumn_read _ _ _ _ _ _ st' _ Hmi Ht He Hexp Hnd Hcol)
    as (f & c' & Hf & Htag & Hlook' & Hc' & Hty & Hread).
  rewrite Hc in Hc'. injection Hc' as <-.
  rewrite Hlook in Hlook'. injection Hlook' as ->.
  destruct (NewMapperInfo_Ok_inv _ _ _ Hmi)
    as (t' & e' & a' & fs' & [= <- <-] & Ht' & He' & Ha & _ & _ & Hobj & Htbl).
  rewrite Ht in Ht'. injection Ht' as <-. rewrite He in He'. injection He' as <-.
  assert (Hg : a0 = a /\ g = f).
  { rewrite Hobj in Helem. simpl in Helem.
    rewrite Ht, He, (proj2 (Z.eqb_neq a 0) Ha), (FieldByName_NoDup _ _ Hnd Hf) in Helem.
    simpl in Helem. by injection Helem as <- <-. }
  destruct Hg as [-> ->].
  destruct Hst as [[_ ->]|[Hi _]]; [|congruence].
  assert (Hpop : populated mi (<[(a, Name f) := d]> st) col).
  { exists (Name f), c, (Some (NativeType c, d)).
    rewrite Htbl. split; [done|]. split; [done|].
    split; [|split; [by eauto|done]].
    rewrite Hread. unfold load, store in *. rewrite lookup_insert_eq. simpl.
    unfold box. rewrite <- Hty.
    destruct (Kind_eqb (kind (NativeType c)) KInterface) eqn:E; [|done].
    by apply Kind_eqb_eq in E. }
  split; [done|]. intros ->.
  eapply getValidIndexes_uuid_first; [exact Hmi| |exact Hpop].
  simpl. by rewrite Ht, He.
Qed.

(** X6.  A row that was never written has no valid index: when the schema
    counts the zero value of every native type as default and no index of
    the table is empty, [getValidIndexes] returns the empty list for an
    object none of whose cells is set. *)
Theorem getValidIndexes_zero_row tbl (t e : Type_) (a : Z) fs mi st :
  NewMapperInfo tbl (Some (t, DPtr a)) = Ok mi ->
  underlying t = Ptr e -> underlying e = Struct fs ->
  Forall (fun f => ovsColumn f <> "" -> exported (Name f) = true) fs ->
  NoDup (Name <$> fs) ->
  (forall c, IsDefaultValue c (Some (NativeType c, Zero (NativeType c))) = true) ->
  (forall name, st !! (a, name) = None) ->
  Forall (fun idx => idx <> []) (Indexes tbl) ->
  getValidIndexes mi st = Ok [].
Proof.
  intros Hmi Ht He Hexp Hnd Hdef Hst Hidx.
  assert (Hexp' : Forall (fun f => ovsColumn f <> "" -> exported (Name f) = true)
                    (structFields (Some (t, DPtr a))))
    by (simpl; by rewrite Ht, He).
  assert (Hpop : forall col, populatedb mi st col = false).
  { intros col. unfold populatedb.
    destruct (fields mi !! col) as [fieldName|] eqn:Hlook; [|done].
    assert (Hcol : hasColumn mi col = true) by (unfold hasColumn; by rewrite Hlook).
    destruct (FieldByColumn_read _ _ _ _ _ _ st _ Hmi Ht He Hexp Hnd Hcol)
      as (f & c & _ & _ & _ & Hc & Hty & ->).
    destruct (NewMapperInfo_Ok_inv _ _ _ Hmi)
      as (_ & _ & _ & _ & _ & _ & _ & _ & _ & _ & _ & ->).
    rewrite Hc. unfold load. rewrite Hst. simpl. unfold box.
    destruct (Kind_eqb (kind (FieldType f)) KInterface) eqn:E.
    - apply Kind_eqb_eq in E. by rewrite (Zero_Interface _ E).
    - rewrite <- Hty, Hdef. by rewrite andb_false_r. }
  unfold getValidIndexes.
  rewrite indexLoop_spec by (intros col; by eapply FieldByColumn_mapped).
  destruct (NewMapperInfo_Ok_inv _ _ _ Hmi)
    as (_ & _ & _ & _ & _ & _ & _ & _ & _ & _ & _ & ->).
  f_equal. simpl. rewrite Hpop. simpl.
  induction Hidx as [|idx l Hne _ IH]; [done|].
  simpl. destruct idx as [|col idx]; [done|]. simpl. by rewrite Hpop.
Qed.

(** X7.  The columns a mapper knows are the tags of the struct: for a mapper
    built by [NewMapperInfo], [hasColumn] holds of a column exactly when it
    is the non-empty [ovs] tag of some field; it never holds of the empty
    name. *)
Theorem hasColumn_tagged tbl (o : iface) mi col :
  NewMapperInfo tbl o = Ok mi ->
  hasColumn mi col = true
  <-> col <> "" /\ exists f, f ∈ structFields o /\ ovsColumn f = col.
Proof.
  intros Hmi.
  destruct (NewMapperInfo_Ok_inv _ _ _ Hmi)
    as (t & e & a & fs & -> & Ht & He & _ & _ & Hflds & _ & _).
  simpl. rewrite Ht, He. unfold hasColumn. rewrite Hflds. split.
  - destruct (columnMap fs !! col) as [fieldName|] eqn:Hlook; [intros _|done].
    apply columnMap_lookup in Hlook as (Hne & f & Hf & Htag & _). eauto.
  - intros (Hne & f & Hf & <-).
    by destruct (columnMap_is_Some fs f Hf Hne) as [fieldName ->].
Qed.

(** X8.  When several fields carry the same tag, the mapper keeps the last
    one: [NewMapperInfo] maps a column to the field after which no other
    field has that column. *)
Theorem NewMapperInfo_last_field_wins tbl (o : iface) mi
    (pre post : list StructField) f :
  NewMapperInfo tbl o = Ok mi ->
  structFields o = pre ++ f :: post ->
  ovsColumn f <> "" ->
  Forall (fun g => ovsColumn g <> ovsColumn f) post ->
  fields mi !! ovsColumn f = Some (Name f).
Proof.
  intros Hmi Hfs Htag Hpost.
  destruct (NewMapperInfo_Ok_inv _ _ _ Hmi)
    as (t & e & a & fs & -> & Ht & He & _ & _ & Hflds & _ & _).
  simpl in Hfs. rewrite Ht, He in Hfs. subst fs.
  rewrite Hflds. by apply columnMap_last.
Qed.

End Facts.

Section FieldPointers.
Context `{Schema}.
Variable Offset : Type_ -> nat -> Z.
Variable backing : Data -> Z.
Implicit Types (mi : MapperInfo) (fs : list StructField) (f : StructField).

Lemma fieldAtOffset_found mi (objType : Type_) fs (k n : nat) f (offset : Z) :
  fs !! n = Some f ->
  (forall j, j < n -> Offset objType (k + j) <> offset) ->
  Offset objType (k + n) = offset ->
  fieldAtOffset Offset mi objType fs k offset
  = match fields mi !! ovsColumn f with
    | None => Err (Errorf "field does not have orm column information")
    | Some _ => Ok (ovsColumn f)
    end.
Proof.
  revert k n. induction fs as [|g fs IH]; intros k n Hn Hbefore Hat; [done|].
  destruct n as [|n]; simpl in *.
  - injection Hn as ->. rewrite Nat.add_0_r in Hat.
    by rewrite (proj2 (Z.eqb_eq _ _) Hat).
  - pose proof (Hbefore 0 ltac:(lia)) as H0. rewrite Nat.add_0_r in H0.
    rewrite (proj2 (Z.eqb_neq _ _) H0).
    apply (IH (S k) n Hn).
    + intros j Hj. replace (S k + j) with (k + S j) by lia. apply Hbefore. lia.
    + by replace (S k + n) with (k + S n) by lia.
Qed.

Lemma fieldAtOffset_none mi (objType : Type_) fs (k : nat) (offset : Z) :
  (forall j, j < length fs -> Offset objType (k + j) <> offset) ->
  fieldAtOffset Offset mi objType fs k offset
  = Err (Errorf "field pminter does not correspond to orm struct").
Proof.
  revert k. induction fs as [|g fs IH]; intros k Hall; [done|].
  simpl in *. pose proof (Hall 0 ltac:(lia)) as H0. rewrite Nat.add_0_r in H0.
  rewrite (proj2 (Z.eqb_neq _ _) H0). apply IH.
  intros j Hj. replace (S k + j) with (k + S j) by lia. apply Hall. lia.
Qed.

Lemma fieldAtOffset_Ok mi (objType : Type_) fs (k : nat) (offset : Z) col :
  fieldAtOffset Offset mi objType fs k offset = Ok col -> hasColumn mi col = true.
Proof.
  revert k. induction fs as [|g fs IH]; intros k Hok; [done|].
  simpl in Hok. destruct (Offset objType k =? offset)%Z; [|by eapply IH].
  unfold hasColumn.
  destruct (fields mi !! Get (Tag g) "ovs") eqn:Hlook; [|done].
  injection Hok as <-. by rewrite Hlook.
Qed.

(** What [ColumnByPtr] computes on a mapper built by [NewMapperInfo], for a
    pointer [offset] bytes into the object. *)
Lemma ColumnByPtr_into_object tbl (t e : Type_) (a : Z) fs mi (pt : Type_)
    (offset : Z) :
  NewMapperInfo tbl (Some (t, DPtr a)) = Ok mi ->
  underlying t = Ptr e -> underlying e = Struct fs ->
  kind pt = KPtr -> (0 <= offset < 2 ^ 64)%Z ->
  ColumnByPtr Offset backing mi (Some (pt, DPtr (a + offset)))
  = fieldAtOffset Offset mi e fs 0 offset.
Proof.
  intros Hmi Ht He Hpt Hoff.
  destruct (NewMapperInfo_Ok_inv _ _ _ Hmi)
    as (_ & _ & _ & _ & _ & _ & _ & _ & _ & _ & Hobj & _).
  unfold ColumnByPtr. rewrite Hobj. simpl. rewrite Hpt. simpl.
  unfold kind. rewrite Ht. simpl. rewrite He.
  replace (a + offset - a)%Z with offset by lia.
  by rewrite Z.mod_small.
Qed.

(** X9.  [ColumnByPtr] refuses, with a wrong-type error and before it looks
    at the object, every field reference that is not a pointer, the nil
    interface value included. *)
Theorem ColumnByPtr_not_pointer mi (fieldPtr : iface) :
  (forall t d, fieldPtr = Some (t, d) -> kind t <> KPtr) ->
  ColumnByPtr Offset backing mi fieldPtr
  = Err (ErrWrongType "ColumnByPminter" "pminter to a field in the struct" fieldPtr).
Proof.
  intros Hnp. unfold ColumnByPtr.
  destruct fieldPtr as [[t d]|]; [|done].
  destruct (Kind_eqb (kind t) KPtr) eqn:E; [|done].
  apply Kind_eqb_eq in E. by destruct (Hnp t d eq_refl).
Qed.

(** X10.  A column that [ColumnByPtr] returns is one the mapper maps, so
    that [FieldByColumn] and [SetField] do not answer it with their
    column-not-found error. *)
Theorem ColumnByPtr_hasColumn mi (fieldPtr : iface) col :
  ColumnByPtr Offset backing mi fieldPtr = Ok col -> hasColumn mi col = true.
Proof.
  unfold ColumnByPtr.
  destruct (negb _); [done|].
  destruct (Pointer backing fieldPtr) as [p| |]; [|done|done].
  destruct (Pointer backing (obj mi)) as [b| |]; [|done|done].
  destruct (TypeOf_Elem (obj mi)) as [objType| |]; [|done|done].
  simpl. destruct (underlying objType); try done.
  apply fieldAtOffset_Ok.
Qed.

(** X11.  The pointer to a tagged field resolves to the column of the
    field: on a mapper built by [NewMapperInfo], [ColumnByPtr] of the
    address of the [i]-th field, which no earlier field shares, returns the
    field's [ovs] tag. *)
Theorem ColumnByPtr_field tbl (t e : Type_) (a : Z) fs mi (pt : Type_) (i : nat) f :
  NewMapperInfo tbl (Some (t, DPtr a)) = Ok mi ->
  underlying t = Ptr e -> underlying e = Struct fs ->
  fs !! i = Some f -> ovsColumn f <> "" ->
  (forall j, j < i -> Offset e j <> Offset e i) ->
  (0 <= Offset e i < 2 ^ 64)%Z ->
  kind pt = KPtr ->
  ColumnByPtr Offset backing mi (Some (pt, DPtr (a + Offset e i))) = Ok (ovsColumn f).
Proof.
  intros Hmi Ht He Hi Htag Hbefore Hrange Hpt.
  rewrite (ColumnByPtr_into_object _ _ _ _ _ _ _ _ Hmi Ht He Hpt Hrange).
  rewrite (fieldAtOffset_found _ _ _ 0 i f) by done.
  destruct (NewMapperInfo_Ok_inv _ _ _ Hmi)
    as (t' & e' & a' & fs' & [= <- <-] & Ht' & He' & _ & _ & Hflds & _ & _).
  rewrite Ht in Ht'. injection Ht' as <-. rewrite He in He'. injection He' as <-.
  rewrite Hflds.
  destruct (columnMap_is_Some fs f) as [fieldName ->]; [|done|done].
  by eapply list_elem_of_lookup_2.
Qed.

(** X12.  The pointer to a field without [ovs] tag is refused: [ColumnByPtr]
    finds the field and returns the error [field does not have orm column
    information]. *)
Theorem ColumnByPtr_untagged tbl (t e : Type_) (a : Z) fs mi (pt : Type_) (i : nat) f :
  NewMapperInfo tbl (Some (t, DPtr a)) = Ok mi ->
  underlying t = Ptr e -> underlying e = Struct fs ->
  fs !! i = Some f -> ovsColumn f = "" ->
  (forall j, j < i -> Offset e j <> Offset e i) ->
  (0 <= Offset e i < 2 ^ 64)%Z ->
  kind pt = KPtr ->
  ColumnByPtr Offset backing mi (Some (pt, DPtr (a + Offset e i)))
  = Err (Errorf "field does not have orm column information").
Proof.
  intros Hmi Ht He Hi Htag Hbefore Hrange Hpt.
  rewrite (ColumnByPtr_into_object _ _ _ _ _ _ _ _ Hmi Ht He Hpt Hrange).
  rewrite (fieldAtOffset_found _ _ _ 0 i f) by done.
  destruct (NewMapperInfo_Ok_inv _ _ _ Hmi)
    as (t' & e' & a' & fs' & [= <- <-] & Ht' & He' & _ & _ & Hflds & _ & _).
  rewrite Ht in Ht'. injection Ht' as <-. rewrite He in He'. injection He' as <-.
  rewrite Hflds. destruct (columnMap fs !! ovsColumn f) as [fieldName|] eqn:Hlook; [|done].
  apply columnMap_lookup in Hlook as [Hne _]. done.
Qed.

(** X13.  A pointer into the object at which no field starts is refused
    with the error [field pminter does not correspond to orm struct]. *)
Theorem ColumnByPtr_between_fields tbl (t e : Type_) (a : Z) fs mi (pt : Type_)
    (offset : Z) :
  NewMapperInfo tbl (Some (t, DPtr a)) = Ok mi ->
  underlying t = Ptr e -> underlying e = Struct fs ->
  (forall j, j < length fs -> Offset e j <> offset) ->
  (0 <= offset < 2 ^ 64)%Z ->
  kind pt = KPtr ->
  ColumnByPtr Offset backing mi (Some (pt, DPtr (a + offset)))
  = Err (Errorf "field pminter does not correspond to orm struct").
Proof.
  intros Hmi Ht He Hnone Hrange Hpt.
  rewrite (ColumnByPtr_into_object _ _ _ _ _ _ _ _ Hmi Ht He Hpt Hrange).
  by apply fieldAtOffset_none.
Qed.

End FieldPointers.
End mapper_more.

(** ** The valid indexes over the schema of the spec *)

Module index_facts.
Import reflect ovsdb mapper schema reflect_facts schema_facts mapper_facts mapper_more.

Lemma isDefaultValue_zeroValue (c : ColumnType) (t : Type_) (d : Data) :
  isDefaultValue c (Some (t, d)) = true <-> zeroValue c d.
Proof.
  split.
  - destruct c as [[]|a|k v], d as [b|n|f|s|[l|]|[l|]|p|l|i]; simpl; try done.
    + intros ->%Z.eqb_eq. constructor.
    + intros Hf. by constructor.
    + destruct b; [done|]. constructor.
    + intros ->%String.eqb_eq. constructor.
    + intros [->%String.eqb_eq| ->%String.eqb_eq]%orb_true_iff; constructor.
    + intros ->%bool_decide_eq_true. constructor.
    + constructor.
    + intros ->%bool_decide_eq_true. constructor.
    + constructor.
  - intros Hz. destruct Hz; simpl; try done.
Qed.

(** The zero value of the native type of a column is a zero value of the
    column. *)
Lemma zeroValue_Zero (c : ColumnType) : zeroValue c (Zero (nativeType c)).
Proof. destruct c as [[]|a|k v]; simpl; by constructor. Qed.

Lemma Name_inj_NoDup (fs : list StructField) (f g : StructField) :
  NoDup (Name <$> fs) -> f ∈ fs -> g ∈ fs -> Name f = Name g -> f = g.
Proof.
  intros Hnd Hf Hg Heq.
  pose proof (FieldByName_NoDup fs f Hnd Hf) as H1.
  pose proof (FieldByName_NoDup fs g Hnd Hg) as H2.
  rewrite Heq in H1. congruence.
Qed.

(** What the loop of [getValidIndexes] tests of a column, over the schema
    of the spec, is that the column maps to a field holding a non-default
    value. *)
Lemma populatedb_nonDefault (tbl : Table) (t e : Type_) (a : Z)
    (fs : list StructField) (mi : MapperInfo) (st : store) (col : string) :
  NewMapperInfo tbl (Some (t, DPtr a)) = Ok mi ->
  underlying t = Ptr e -> underlying e = Struct fs ->
  Forall (fun f => ovsColumn f <> "" -> exported (Name f) = true) fs ->
  NoDup (Name <$> fs) ->
  populatedb mi st col = true <-> nonDefault tbl fs a st col.
Proof.
  intros Hmi Ht He Hexp Hnd.
  destruct (NewMapperInfo_Ok_inv _ _ _ Hmi)
    as (t' & e' & a' & fs' & [= <- <-] & Ht' & He' & Ha & Hfs & Hflds & Hobj & Htbl).
  rewrite Ht in Ht'. injection Ht' as <-. rewrite He in He'. injection He' as <-.
  assert (Hread : forall f c,
            f ∈ fs -> fields mi !! col = Some (Name f) -> Column tbl col = Some c ->
            NativeType c = FieldType f ->
            FieldByColumn mi st col = Ok (box (FieldType f) (load st a f)) ->
            populatedb mi st col = true <-> ~ zeroValue c (load st a f)).
  { intros f c Hf Hlook Hc Hty Hfbc. unfold populatedb.
    rewrite Hlook, Htbl, Hc, Hfbc. unfold box.
    destruct (Kind_eqb (kind (FieldType f)) KInterface) eqn:Hk.
    { apply Kind_eqb_eq in Hk. rewrite <- Hty in Hk.
      by destruct (nativeType_not_Interface c). }
    rewrite bool_decide_eq_true_2 by eauto. simpl.
    rewrite negb_true_iff, <- not_true_iff_false.
    apply not_iff_compat, (isDefaultValue_zeroValue c (FieldType f)). }
  split.
  - intros Hpop.
    assert (Hcol : hasColumn mi col = true).
    { unfold populatedb in Hpop. unfold hasColumn.
      by destruct (fields mi !! col). }
    destruct (FieldByColumn_read _ _ _ _ _ _ st _ Hmi Ht He Hexp Hnd Hcol)
      as (f & c & Hf & Htag & Hlook & Hc & Hty & Hfbc).
    exists f, c. repeat split; try done.
    + by rewrite <- Hflds.
    + by apply (Hread f c).
  - intros (f & c & Hf & Hmap & Hc & Hty & Hnz).
    rewrite <- Hflds in Hmap.
    assert (Hcol : hasColumn mi col = true) by (unfold hasColumn; by rewrite Hmap).
    destruct (FieldByColumn_read _ _ _ _ _ _ st _ Hmi Ht He Hexp Hnd Hcol)
      as (g & c' & Hg & Htag & Hlook & Hc' & Hty' & Hfbc).
    assert (g = f) as ->.
    { apply (Name_inj_NoDup fs); try done. congruence. }
    assert (c' = c) as -> by (simpl in Hc'; congruence).
    by apply (Hread f c).
Qed.

(** C2.  Over the schema of the spec, for a row whose tagged fields are
    exported (the names of the fields of a Go struct are distinct):
    [getValidIndexes] returns without error the candidates, taken
    in order from [_uuid] followed by the indexes of the table, of which
    every column maps to a field of the row that holds a non-default value,
    that is a value that is not a zero value of the declared type of the
    column; no other candidate is returned and the order of the candidates
    is kept. *)
Theorem getValidIndexes_non_default (tbl : Table) (t e : Type_) (a : Z)
    (fs : list StructField) (mi : MapperInfo) (st : store) :
  NewMapperInfo tbl (Some (t, DPtr a)) = Ok mi ->
  underlying t = Ptr e -> underlying e = Struct fs ->
  Forall (fun f => ovsColumn f <> "" -> exported (Name f) = true) fs ->
  NoDup (Name <$> fs) ->
  exists keep : list string -> bool,
    getValidIndexes mi st = Ok (List.filter keep ([ ["_uuid"] ] ++ TableIndexes tbl))
    /\ forall idx, keep idx = true <-> Forall (nonDefault tbl fs a st) idx.
Proof.
  intros Hmi Ht He Hexp Hnd.
  exists (forallb (populatedb mi st)). split.
  - apply (getValidIndexes_spec (H:=spec_schema) tbl (Some (t, DPtr a))); [done|].
    simpl. by rewrite Ht, He.
  - intros idx. rewrite forallb_populated.
    induction idx as [|col idx IH].
    + split; constructor.
    + rewrite !Forall_cons, IH, <- populatedb_spec.
      by rewrite (populatedb_nonDefault tbl t e a fs mi st col Hmi Ht He Hexp Hnd).
Qed.

End index_facts.

(** ** More on the condition factories *)

Module client_more.
Import client.

Section Facts.
Context {M F V : Type}.
Implicit Types (rc : gmap string M) (c : predicateCondFactory M F V).

(** The scan when the orm answers every matching row. *)
Lemma generateRows_concat c rc (l : list (string * M))
    (acc : list (ovsdbCondition V)) (results : list (list (ovsdbCondition V))) :
  (forall uuid row, (uuid, row) ∈ l -> rc !! uuid = Some row) ->
  Forall2 (fun kv conds =>
             newCondition (cache_orm (pred_cache c)) (pred_tableName c) (Some kv.2) []
             = (conds, None))
          (filter (fun kv => predicate c kv.2 = true) l) results ->
  generateRows c rc l.*1 acc = Return (acc ++ concat results) None.
Proof.
  intros Hin. revert acc results.
  induction l as [|[uuid row] l IH]; intros acc results Hres; simpl.
  - rewrite filter_nil in Hres. apply Forall2_nil_inv_l in Hres as ->.
    simpl. by rewrite app_nil_r.
  - assert (Hrow : rc !! uuid = Some row) by (apply Hin; left).
    assert (Hl : forall u r, (u, r) ∈ l -> rc !! u = Some r)
      by (intros u r ?; apply Hin; by right).
    unfold Row. rewrite Hrow. simpl.
    destruct (predicate c row) eqn:Hp.
    + rewrite filter_cons_True in Hres by done.
      apply Forall2_cons_inv_l in Hres as (conds & results' & Hc & Hres & ->).
      simpl in Hc. rewrite Hc, (IH Hl _ _ Hres). simpl. by rewrite <- app_assoc.
    + rewrite filter_cons_False in Hres by (simpl; congruence). by apply IH.
Qed.

(** The scan when the orm fails on a matching row, all matching rows before
    it having been answered. *)
Lemma generateRows_error c rc (l pre post : list (string * M)) (kv : string * M)
    (acc partial : list (ovsdbCondition V)) (results : list (list (ovsdbCondition V)))
    (e : error) :
  (forall uuid row, (uuid, row) ∈ l -> rc !! uuid = Some row) ->
  filter (fun kv => predicate c kv.2 = true) l = pre ++ kv :: post ->
  Forall2 (fun kv conds =>
             newCondition (cache_orm (pred_cache c)) (pred_tableName c) (Some kv.2) []
             = (conds, None)) pre results ->
  newCondition (cache_orm (pred_cache c)) (pred_tableName c) (Some kv.2) []
  = (partial, Some e) ->
  generateRows c rc l.*1 acc = Return [] (Some e).
Proof.
  intros Hin. revert acc pre results.
  induction l as [|[uuid row] l IH]; intros acc pre results Hfilter Hpre Hfail; simpl.
  - rewrite filter_nil in Hfilter. by destruct pre.
  - assert (Hrow : rc !! uuid = Some row) by (apply Hin; left).
    assert (Hl : forall u r, (u, r) ∈ l -> rc !! u = Some r)
      by (intros u r ?; apply Hin; by right).
    unfold Row. rewrite Hrow. simpl.
    destruct (predicate c row) eqn:Hp.
    + rewrite filter_cons_True in Hfilter by done.
      destruct pre as [|kv0 pre]; simpl in Hfilter.
      * injection Hfilter as <- _. simpl in Hfail. by rewrite Hfail.
      * injection Hfilter as <- Hfilter.
        apply Forall2_cons_inv_l in Hpre as (conds & results' & Hc & Hpre & ->).
        simpl in Hc. rewrite Hc. by eapply IH.
    + rewrite filter_cons_False in Hfilter by (simpl; congruence). by eapply IH.
Qed.

(** The scan returns, and never both conditions and an error. *)
Lemma generateRows_returns c rc (l : list (string * M)) (acc : list (ovsdbCondition V)) :
  (forall uuid row, (uuid, row) ∈ l -> rc !! uuid = Some row) ->
  (exists conds, generateRows c rc l.*1 acc = Return conds None)
  \/ (exists e, generateRows c rc l.*1 acc = Return [] (Some e)).
Proof.
  intros Hin. revert acc.
  induction l as [|[uuid row] l IH]; intros acc; simpl; [by eauto|].
  assert (Hrow : rc !! uuid = Some row) by (apply Hin; left).
  assert (Hl : forall u r, (u, r) ∈ l -> rc !! u = Some r)
    by (intros u r ?; apply Hin; by right).
  unfold Row. rewrite Hrow. simpl.
  destruct (predicate c row); [|by apply IH].
  destruct (newCondition _ _ _ _) as [elemCond [e|]]; [by eauto|by apply IH].
Qed.

(** X14.  [Generate] of a predicate factory consults the orm for the
    matching rows only, and returns the conditions the orm gives for them,
    concatenated in the order of the scan; a row that does not satisfy the
    predicate is never handed to the orm. *)
Theorem predicateCondFactory_Generate_concat c rc
    (results : list (list (ovsdbCondition V))) :
  TableCache_Table (pred_cache c) (pred_tableName c) = Some rc ->
  Forall2 (fun kv conds =>
             newCondition (cache_orm (pred_cache c)) (pred_tableName c) (Some kv.2) []
             = (conds, None))
          (filter (fun kv => predicate c kv.2 = true) (map_to_list rc)) results ->
  Generate c = Return (concat results) None.
Proof.
  intros Hsome Hres. simpl. unfold predicateCondFactory_Generate, Rows.
  rewrite Hsome. rewrite (generateRows_concat c rc _ [] results); [done| |done].
  intros uuid row. apply elem_of_map_to_list.
Qed.

(** X15.  When the orm fails on a matching row, [Generate] returns that
    error and no condition at all: the conditions gathered for the matching
    rows scanned before are dropped. *)
Theorem predicateCondFactory_Generate_first_error c rc
    (pre post : list (string * M)) (kv : string * M)
    (partial : list (ovsdbCondition V)) (results : list (list (ovsdbCondition V)))
    (e : error) :
  TableCache_Table (pred_cache c) (pred_tableName c) = Some rc ->
  filter (fun kv => predicate c kv.2 = true) (map_to_list rc) = pre ++ kv :: post ->
  Forall2 (fun kv conds =>
             newCondition (cache_orm (pred_cache c)) (pred_tableName c) (Some kv.2) []
             = (conds, None)) pre results ->
  newCondition (cache_orm (pred_cache c)) (pred_tableName c) (Some kv.2) []
  = (partial, Some e) ->
  Generate c = Return [] (Some e).
Proof.
  intros Hsome Hfilter Hpre Hfail. simpl. unfold predicateCondFactory_Generate, Rows.
  rewrite Hsome. eapply generateRows_error; try done.
  intros uuid row. apply elem_of_map_to_list.
Qed.

(** X16.  [Generate] of a predicate factory and of an index factory never
    returns conditions together with an error: when the orm fails, also when
    it returns conditions along with its error, the list returned is nil. *)
Theorem Generate_conditions_or_error c (i : indexCondFactory M F V) :
  match Generate c with
  | Return conds (Some _) => conds = []
  | _ => True
  end
  /\ match Generate i with
     | Return conds (Some _) => conds = []
     | _ => True
     end.
Proof.
  split.
  - simpl. unfold predicateCondFactory_Generate.
    destruct (TableCache_Table _ _) as [rc|]; [|done].
    destruct (generateRows_returns c rc (map_to_list rc) []) as [[conds Hr]|[e Hr]].
    + intros uuid row. apply elem_of_map_to_list.
    + unfold Rows. by rewrite Hr.
    + unfold Rows. by rewrite Hr.
  - simpl. unfold indexCondFactory_Generate.
    by destruct (newCondition _ _ _ _) as [conds [e|]].
Qed.

(** X17.  [Generate] and [Matches] of a predicate factory agree: when the
    orm answers every cached row with the equality on its [_uuid], and
    distinct UUIDs have distinct protocol forms, the equality on a UUID is
    among the generated conditions exactly when the cache holds a row under
    that UUID which [Matches] accepts. *)
Theorem predicateCondFactory_Generate_Matches c rc (enc : string -> V) :
  Inj (=) (=) enc ->
  TableCache_Table (pred_cache c) (pred_tableName c) = Some rc ->
  (forall uuid row, rc !! uuid = Some row ->
     newCondition (cache_orm (pred_cache c)) (pred_tableName c) (Some row) []
     = ([NewCondition "_uuid" ConditionEqual (enc uuid)], None)) ->
  exists conds,
    Generate c = Return conds None
    /\ forall uuid,
         NewCondition "_uuid" ConditionEqual (enc uuid) ∈ conds
         <-> exists row, rc !! uuid = Some row /\ Matches c (Some row) = Return true None.
Proof.
  intros Hinj Hsome Hcond. eexists. split.
  - simpl. unfold predicateCondFactory_Generate, Rows. rewrite Hsome.
    rewrite (client_facts.generateRows_scan c rc enc); [done| |done].
    intros uuid row. apply elem_of_map_to_list.
  - intros uuid. simpl. rewrite list_elem_of_fmap. split.
    + intros ([u row] & Heq & Hin). unfold uuidCondition in Heq. simpl in Heq.
      injection Heq as Heq. apply Hinj in Heq as <-.
      apply list_elem_of_filter in Hin as [Hp Hin]. simpl in Hp.
      apply elem_of_map_to_list in Hin.
      exists row. split; [done|]. unfold predicateCondFactory_Matches. by rewrite Hp.
    + intros (row & Hrow & Hm). unfold predicateCondFactory_Matches in Hm.
      injection Hm as Hp. exists (uuid, row). split; [done|].
      apply list_elem_of_filter. split; [done|]. by apply elem_of_map_to_list.
Qed.

(** X18.  Wrapping keeps errors apart: two errors that
    [newErrorConditionFactory] turns into the same factory have the same
    text, so the text of the captured error can be read off the factory. *)
Theorem newErrorConditionFactory_inj (e1 e2 : error) :
  newErrorConditionFactory e1 = newErrorConditionFactory e2 -> e1 = e2.
Proof.
  destruct e1 as [m1], e2 as [m2]. unfold newErrorConditionFactory. simpl.
  intros [= Heq]. f_equal. exact Heq.
Qed.

End Facts.
End client_more.

(** ** More on mutations *)

Module mutation_more.
Import strconv mutation utf8_facts mutation_facts.

Section Facts.
Context `{Strconv}.

(** X19.  [MarshalJSON] does not check the mutator, [UnmarshalJSON] does:
    when the value of a mutation is marshalled to a document whose numbers
    are in the range of float64, the array marshalled from the mutation is
    accepted exactly when its mutator is one of the seven known ones, and is
    otherwise refused as [<mutator> is not a valid mutator], where the
    mutator is named as [json.Marshal] wrote it, coerced to UTF-8. *)
Theorem UnmarshalJSON_of_MarshalJSON (m target : Mutation) (doc : json) :
  Value m = Marshals doc ->
  inFloat64 doc = true ->
  ((UnmarshalJSON target (Some (MarshalJSON m).1)).2 = None <-> Mutator_ m ∈ mutators)
  /\ (Mutator_ m ∉ mutators ->
      (UnmarshalJSON target (Some (MarshalJSON m).1)).2
      = Some (ErrNotValidMutator (coerce (Mutator_ m) ++ " is not a valid mutator"))).
Proof.
  intros Hdoc Hv. rewrite (MarshalJSON_array _ _ Hdoc). simpl fst.
  apply valueInterface_saved in Hv.
  destruct (valueInterface doc) as [x err] eqn:Hx. simpl in Hv. subst err.
  rewrite (UnmarshalJSON_array3 _ _ _ _ _ Hx). cbv zeta.
  rewrite !coerce_idemp.
  match goal with
  | |- context [switchMutator ?x (coerce (Mutator_ m))] =>
      pose proof (switchMutator_accepts x (coerce (Mutator_ m))) as Hacc;
      destruct (switchMutator x (coerce (Mutator_ m))) as [m'|] eqn:Hs
  end; simpl; rewrite coerce_mutators in Hacc.
  - split; [split; [intros _; apply Hacc; eauto|done]|].
    intros Hn. destruct Hn. apply Hacc. eauto.
  - split; [|done]. split; [done|]. intros Hin. apply Hacc in Hin as [? ?]. done.
Qed.

(** X20.  The order in which [UnmarshalJSON] refuses.  Bytes that are not
    a JSON text are refused as such.  An error of the decoder comes next:
    a number literal out of the range of float64 among the elements of the
    array is refused with the first such literal, whatever the length of the
    array and whatever its other elements are.  Then, the number literals
    being in range, null or an array of other than three elements is refused
    with its number of elements, null counting as none; then a first element
    that is not a string is refused whatever the second is; only then the
    second. *)
Theorem UnmarshalJSON_refusals (m : Mutation) :
  (UnmarshalJSON m None).2 = Some SyntaxError
  /\ (forall pre post literal,
        forallb inFloat64 pre = true -> ParseFloat literal = None ->
        (UnmarshalJSON m (Some (JArray (pre ++ JNumber literal :: post)))).2
        = Some (UnmarshalTypeError ("number " ++ literal) "float64"))
  /\ (UnmarshalJSON m (Some JNull)).2 = Some (ErrElements 0)
  /\ (forall elems, forallb inFloat64 elems = true -> length elems <> 3 ->
        (UnmarshalJSON m (Some (JArray elems))).2 = Some (ErrElements (length elems)))
  /\ (forall v0 v1 v2, forallb inFloat64 [v0; v1; v2] = true ->
        (forall s, v0 <> JString s) ->
        (UnmarshalJSON m (Some (JArray [v0; v1; v2]))).2
        = Some (ErrColumnName (valueInterface v0).1))
  /\ (forall column v1 v2, forallb inFloat64 [JString column; v1; v2] = true ->
        (forall s, v1 <> JString s) ->
        (UnmarshalJSON m (Some (JArray [JString column; v1; v2]))).2
        = Some (ErrMutatorString (valueInterface v1).1)).
Proof.
  split; [done|]. split; [|split; [done|split; [|split]]].
  - intros pre post literal Hpre%arrayInterface_inFloat64 Hlit.
    rewrite (UnmarshalJSON_saved _ _ (UnmarshalTypeError ("number " ++ literal) "float64"));
      [done|].
    rewrite arrayInterface_app, arrayInterface_cons, Hpre. simpl.
    unfold convertNumber. by rewrite Hlit.
  - intros elems Herr%arrayInterface_inFloat64 Hlen.
    pose proof (arrayInterface_length elems) as Hl.
    unfold UnmarshalJSON, Unmarshal_slice.
    destruct (arrayInterface elems) as [v saved]. simpl in *. subst saved.
    rewrite <- Hl in Hlen |- *.
    by destruct v as [|? [|? [|? [|? ?]]]].
  - intros v0 v1 v2 Herr%arrayInterface_inFloat64 Hv0.
    unfold UnmarshalJSON, Unmarshal_slice.
    rewrite !arrayInterface_cons in Herr |- *. simpl in Herr |- *. rewrite Herr.
    destruct (valueInterface v0).1 as [| | |s| |] eqn:Hx; try done.
    apply valueInterface_string in Hx as (s0 & -> & _). by destruct (Hv0 s0).
  - intros column v1 v2 Herr%arrayInterface_inFloat64 Hv1.
    unfold UnmarshalJSON, Unmarshal_slice.
    rewrite !arrayInterface_cons in Herr |- *. simpl in Herr |- *. rewrite Herr.
    destruct (valueInterface v1).1 as [| | |s| |] eqn:Hx; try done.
    apply valueInterface_string in Hx as (s0 & -> & _). by destruct (Hv1 s0).
Qed.

End Facts.
End mutation_more.

(** ** The further statements at the data of the tests *)

Module more_examples.
Import reflect ovsdb mapper schema fixtures.

Lemma lspFields_exported :
  Forall (fun f => ovsColumn f <> "" -> exported (Name f) = true)
    (structFields lspPtr).
Proof. repeat constructor. Qed.

Lemma lspFields_NoDup : NoDup (Name <$> structFields lspPtr).
Proof. refine (bool_decide_unpack (NoDup _) _). vm_compute. exact I. Qed.

Lemma lspMapper_built : NewMapperInfo Logical_Switch_Port lspPtr = Ok lspMapper.
Proof. vm_compute. reflexivity. Qed.

Lemma getValidIndexes_non_default_witness :
  exists keep : list string -> bool,
    getValidIndexes lspMapper byUUID
    = Ok (List.filter keep ([ ["_uuid"] ] ++ TableIndexes Logical_Switch_Port))
    /\ forall idx,
         keep idx = true
         <-> Forall (nonDefault Logical_Switch_Port (structFields lspPtr) 4096 byUUID) idx.
Proof.
  apply (index_facts.getValidIndexes_non_default Logical_Switch_Port
           (Ptr testLogicalSwitchPort) testLogicalSwitchPort 4096
           (structFields lspPtr) lspMapper byUUID).
  - exact lspMapper_built.
  - reflexivity.
  - reflexivity.
  - exact lspFields_exported.
  - exact lspFields_NoDup.
Defined.

(** The UUID of zeros is a zero value: a row that holds it is not found by
    [_uuid]. *)
Example getValidIndexes_byZeroUUID :
  getValidIndexes lspMapper byZeroUUID = Ok [ ["name"] ]
  /\ zeroValue (Atomic TypeUUID) (DString zeroUUID)
  /\ ~ nonDefault Logical_Switch_Port (structFields lspPtr) 4096 byZeroUUID "_uuid"
  /\ nonDefault Logical_Switch_Port (structFields lspPtr) 4096 byZeroUUID "name".
Proof.
  split; [vm_compute; reflexivity|]. split; [constructor|]. split.
  - intros (f & c & Hf & Hmap & Hc & _ & Hnz).
    injection Hc as <-. apply Hnz.
    assert (Hl : columnMap (structFields lspPtr) !! "_uuid" = Some "UUID")
      by (vm_compute; reflexivity).
    rewrite Hl in Hmap. injection Hmap as Hname.
    unfold load, byZeroUUID. rewrite <- Hname.
    rewrite lookup_insert_eq. constructor.
  - exists (mkStructField "Name" String (ovsTag "name")), (Atomic TypeString).
    split; [apply list_elem_of_In; simpl; tauto|].
    split; [reflexivity|]. split; [reflexivity|]. split; [reflexivity|].
    vm_compute. intros Hz. inversion Hz.
Qed.

Lemma FieldByColumn_native_type_witness :
  hasColumn lspMapper "name" = true
  /\ exists d, FieldByColumn lspMapper byIndex "name" = Ok (Some (String, d)).
Proof.
  split; [reflexivity|].
  apply (mapper_more.FieldByColumn_native_type (H:=spec_schema) Logical_Switch_Port
           (Ptr testLogicalSwitchPort) testLogicalSwitchPort 4096 (structFields lspPtr)
           lspMapper byIndex "name" (Atomic TypeString)).
  - exact lspMapper_built.
  - reflexivity.
  - reflexivity.
  - exact lspFields_exported.
  - exact lspFields_NoDup.
  - reflexivity.
  - discriminate.
  - reflexivity.
Defined.

Lemma SetField_FieldByColumn_witness :
  SetField lspMapper byIndex "type" (Some (String, DString "router"))
  = (Ok tt, <[(4096%Z, "Type") := DString "router"]> byIndex)
  /\ FieldByColumn lspMapper (<[(4096%Z, "Type") := DString "router"]> byIndex) "type"
     = Ok (Some (String, DString "router")).
Proof.
  assert (Hset : SetField lspMapper byIndex "type" (Some (String, DString "router"))
                 = (Ok tt, <[(4096%Z, "Type") := DString "router"]> byIndex))
    by (vm_compute; reflexivity).
  split; [exact Hset|].
  refine (proj1 (mapper_more.SetField_FieldByColumn (H:=spec_schema) lspMapper byIndex _
                   "type" "Type" 4096 (mkStructField "Type" String (ovsTag "type"))
                   String (DString "router") _ _ _ Hset)).
  - reflexivity.
  - reflexivity.
  - discriminate.
Defined.

Lemma SetField_populates_witness :
  SetField lspMapper byIndex "_uuid" (Some (String, DString aUUID0))
  = (Ok tt, <[(4096%Z, "UUID") := DString aUUID0]> byIndex)
  /\ exists rest,
       getValidIndexes lspMapper (<[(4096%Z, "UUID") := DString aUUID0]> byIndex)
       = Ok (["_uuid"] :: rest).
Proof.
  assert (Hset : SetField lspMapper byIndex "_uuid" (Some (String, DString aUUID0))
                 = (Ok tt, <[(4096%Z, "UUID") := DString aUUID0]> byIndex))
    by (vm_compute; reflexivity).
  split; [exact Hset|].
  refine (proj2 (mapper_more.SetField_populates (H:=spec_schema) Logical_Switch_Port
                   (Ptr testLogicalSwitchPort) testLogicalSwitchPort 4096
                   (structFields lspPtr) lspMapper byIndex _ "_uuid" (Atomic TypeUUID)
                   String (DString aUUID0) lspMapper_built _ _ lspFields_exported
                   lspFields_NoDup _ _ Hset _) eq_refl).
  - reflexivity.
  - reflexivity.
  - reflexivity.
  - discriminate.
  - reflexivity.
Defined.

Lemma getValidIndexes_zero_row_witness :
  Forall (fun idx : list string => idx <> []) (Indexes Logical_Switch_Port)
  /\ getValidIndexes lspMapper ∅ = Ok [].
Proof.
  assert (Hidx : Forall (fun idx : list string => idx <> [])
                   (Indexes Logical_Switch_Port)) by (by repeat constructor).
  split; [exact Hidx|].
  apply (mapper_more.getValidIndexes_zero_row (H:=spec_schema) Logical_Switch_Port
           (Ptr testLogicalSwitchPort) testLogicalSwitchPort 4096 (structFields lspPtr)).
  - exact lspMapper_built.
  - reflexivity.
  - reflexivity.
  - exact lspFields_exported.
  - exact lspFields_NoDup.
  - exact schema_facts.isDefaultValue_Zero.
  - intros name. apply lookup_empty.
  - exact Hidx.
Defined.

Lemma hasColumn_tagged_witness :
  hasColumn lspMapper "external_ids" = true
  <-> "external_ids" <> ""
      /\ exists f, f ∈ structFields lspPtr /\ ovsColumn f = "external_ids".
Proof.
  exact (mapper_more.hasColumn_tagged (H:=spec_schema) Logical_Switch_Port lspPtr
           lspMapper "external_ids" lspMapper_built).
Defined.

Lemma NewMapperInfo_last_field_wins_witness :
  NewMapperInfo Logical_Switch_Port aliasedPtr = Ok aliasedMapper
  /\ fields aliasedMapper !! "name" = Some "Alias".
Proof.
  assert (Hmi : NewMapperInfo Logical_Switch_Port aliasedPtr = Ok aliasedMapper)
    by (vm_compute; reflexivity).
  split; [exact Hmi|].
  apply (mapper_more.NewMapperInfo_last_field_wins (H:=spec_schema) Logical_Switch_Port
           aliasedPtr aliasedMapper [mkStructField "Name" String (ovsTag "name")] []
           (mkStructField "Alias" String (ovsTag "name")) Hmi).
  - reflexivity.
  - discriminate.
  - constructor.
Defined.

Lemma ColumnByPtr_not_pointer_witness :
  ColumnByPtr lspOffset noBacking lspMapper (Some (String, DString "foo"))
  = Err (ErrWrongType "ColumnByPminter" "pminter to a field in the struct"
           (Some (String, DString "foo"))).
Proof.
  apply (mapper_more.ColumnByPtr_not_pointer (H:=spec_schema)).
  intros t d [= <- <-]. discriminate.
Defined.

Lemma ColumnByPtr_hasColumn_witness :
  ColumnByPtr lspOffset noBacking lspMapper (Some (Ptr String, DPtr 4112)) = Ok "name"
  /\ hasColumn lspMapper "name" = true.
Proof.
  assert (Hcol : ColumnByPtr lspOffset noBacking lspMapper (Some (Ptr String, DPtr 4112))
                 = Ok "name") by (vm_compute; reflexivity).
  split; [exact Hcol|].
  exact (mapper_more.ColumnByPtr_hasColumn (H:=spec_schema) lspOffset noBacking
           lspMapper _ "name" Hcol).
Defined.

Lemma ColumnByPtr_field_witness :
  ColumnByPtr lspOffset noBacking lspMapper
    (Some (Ptr (Map String String), DPtr (4096 + 48)))
  = Ok "external_ids".
Proof.
  apply (mapper_more.ColumnByPtr_field (H:=spec_schema) lspOffset noBacking
           Logical_Switch_Port (Ptr testLogicalSwitchPort) testLogicalSwitchPort 4096
           (structFields lspPtr) lspMapper (Ptr (Map String String)) 3
           (mkStructField "ExternalIds" (Map String String) (ovsTag "external_ids"))).
  - exact lspMapper_built.
  - reflexivity.
  - reflexivity.
  - reflexivity.
  - discriminate.
  - intros j Hj. do 3 (destruct j as [|j]; [discriminate|]). lia.
  - vm_compute. split; [discriminate|reflexivity].
  - reflexivity.
Defined.

Lemma ColumnByPtr_untagged_witness :
  NewMapperInfo Logical_Switch_Port annotatedPtr = Ok annotatedMapper
  /\ ColumnByPtr lspOffset noBacking annotatedMapper (Some (Ptr String, DPtr (8192 + 16)))
     = Err (Errorf "field does not have orm column information").
Proof.
  assert (Hmi : NewMapperInfo Logical_Switch_Port annotatedPtr = Ok annotatedMapper)
    by (vm_compute; reflexivity).
  split; [exact Hmi|].
  apply (mapper_more.ColumnByPtr_untagged (H:=spec_schema) lspOffset noBacking
           Logical_Switch_Port (Ptr annotated) annotated 8192
           (structFields annotatedPtr) annotatedMapper (Ptr String) 1
           (mkStructField "Note" String [])).
  - exact Hmi.
  - reflexivity.
  - reflexivity.
  - reflexivity.
  - reflexivity.
  - intros j Hj. destruct j as [|j]; [discriminate|lia].
  - vm_compute. split; [discriminate|reflexivity].
  - reflexivity.
Defined.

Lemma ColumnByPtr_between_fields_witness :
  ColumnByPtr lspOffset noBacking lspMapper (Some (Ptr String, DPtr (4096 + 8)))
  = Err (Errorf "field pminter does not correspond to orm struct").
Proof.
  apply (mapper_more.ColumnByPtr_between_fields (H:=spec_schema) lspOffset noBacking
           Logical_Switch_Port (Ptr testLogicalSwitchPort) testLogicalSwitchPort 4096
           (structFields lspPtr) lspMapper (Ptr String) 8).
  - exact lspMapper_built.
  - reflexivity.
  - reflexivity.
  - intros j Hj. do 6 (destruct j as [|j]; [discriminate|]). simpl in Hj. lia.
  - vm_compute. split; [discriminate|reflexivity].
  - reflexivity.
Defined.

Lemma SetField_typed_witness :
  SetField lspMapper byIndex "name" (Some (Int, DInt 3))
  = (Err (ErrNotAssignable "name" (Some (Int, DInt 3)) "Name" String), byIndex).
Proof.
  apply (mapper_facts.SetField_typed (H:=spec_schema) lspMapper byIndex "name" "Name"
           4096 (mkStructField "Name" String (ovsTag "name")) Int (DInt 3)).
  - reflexivity.
  - reflexivity.
  - reflexivity.
  - discriminate.
  - discriminate.
Defined.

Lemma NewMapperInfo_rejects_witness :
  NewMapperInfo Logical_Switch_Port (Some (String, DString "lsp0"))
  = Err (ErrWrongType "NewMapperInfo" "pminter to a struct" (Some (String, DString "lsp0"))).
Proof.
  apply (mapper_facts.NewMapperInfo_rejects (H:=spec_schema)).
  left. discriminate.
Defined.

Import client.

Lemma predicateCondFactory_Generate_concat_witness :
  Generate enabledPorts = Return [NewCondition "_uuid" ConditionEqual "u1"] None.
Proof.
  apply (client_more.predicateCondFactory_Generate_concat enabledPorts
           {[ "u0" := "u0"; "u1" := "u1" ]}
           [ [NewCondition "_uuid" ConditionEqual "u1"] ]).
  - reflexivity.
  - vm_compute. repeat constructor.
Defined.

(** The scan of [partialPorts] gathers the condition of [u1], and drops it
    when the orm fails on [u2]; what the orm returned along with the error is
    dropped as well. *)
Lemma predicateCondFactory_Generate_first_error_witness :
  Generate partialPorts = Return [] (Some (errors_New "no index")).
Proof.
  apply (client_more.predicateCondFactory_Generate_first_error partialPorts
           {[ "u0" := "u0"; "u1" := "u1"; "u2" := "u2" ]}
           [("u1", "u1")] [("u0", "u0")] ("u2", "u2")
           [NewCondition "name" ConditionEqual "u2"]
           [ [NewCondition "_uuid" ConditionEqual "u1"] ]
           (errors_New "no index")).
  - reflexivity.
  - vm_compute. reflexivity.
  - repeat constructor.
  - reflexivity.
Defined.

Example Generate_brokenPorts :
  Generate brokenPorts = Return [] (Some (errors_New "no index")).
Proof. vm_compute. reflexivity. Qed.

Lemma predicateCondFactory_Generate_Matches_witness :
  exists conds,
    Generate enabledPorts = Return conds None
    /\ forall uuid,
         NewCondition "_uuid" ConditionEqual uuid ∈ conds
         <-> exists row, ({[ "u0" := "u0"; "u1" := "u1" ]} : gmap string string) !! uuid
                         = Some row
                         /\ Matches enabledPorts (Some row) = Return true None.
Proof.
  apply (client_more.predicateCondFactory_Generate_Matches enabledPorts
           {[ "u0" := "u0"; "u1" := "u1" ]} (fun uuid => uuid)).
  - intros x y Hxy. exact Hxy.
  - reflexivity.
  - intros uuid row Hlook.
    apply lookup_insert_Some in Hlook as [[<- <-]|[_ Hlook]]; [reflexivity|].
    apply lookup_singleton_Some in Hlook as [<- <-]. reflexivity.
Defined.

Lemma newErrorConditionFactory_inj_witness :
  newErrorConditionFactory ErrNotFound = newErrorConditionFactory (errors_New "not found")
  /\ ErrNotFound = errors_New "not found".
Proof.
  split; [reflexivity|].
  apply client_more.newErrorConditionFactory_inj.
  reflexivity.
Defined.

Import strconv mutation.

(** The conversions of binary64 on some literals. *)
Example ParseFloat_FormatFloat :
  (fun s => FormatFloat <$> ParseFloat s)
    <$> ["1.0"; "0.1"; "1e21"; "1E-7"; "9007199254740993";
         "1.7976931348623157e308"; "1.7976931348623159e308"; "1e999"]
  = [Some "1"; Some "0.1"; Some "1e+21"; Some "1e-7"; Some "9007199254740992";
     Some "1.7976931348623157e+308"; None; None].
Proof. vm_compute. reflexivity. Qed.

Lemma Unmarshal_MarshalJSON_witness :
  Unmarshal (Some (MarshalJSON rawMutation).1) staleMutation = (staleMutation, None)
  /\ (UnmarshalJSON staleMutation (Some (MarshalJSON rawMutation).1)).1
     = NewMutation (replacement ++ "tag") MutateOperationDelete (JNumber "1").
Proof.
  apply (mutation_facts.Unmarshal_MarshalJSON (H:=binary64)
           rawMutation staleMutation (JNumber "1.0") (JNumber "1")).
  - reflexivity.
  - vm_compute. reflexivity.
  - apply list_elem_of_In. simpl. tauto.
Defined.

Lemma UnmarshalJSON_of_MarshalJSON_witness :
  ((UnmarshalJSON staleMutation (Some (MarshalJSON oddMutation).1)).2 = None
   <-> Mutator_ oddMutation ∈ mutators)
  /\ (Mutator_ oddMutation ∉ mutators ->
      (UnmarshalJSON staleMutation (Some (MarshalJSON oddMutation).1)).2
      = Some (ErrNotValidMutator (replacement ++ " is not a valid mutator"))).
Proof.
  apply (mutation_more.UnmarshalJSON_of_MarshalJSON (H:=binary64)
           oddMutation staleMutation (JString "x")); reflexivity.
Defined.

(** The mutator that is not UTF-8 is named by U+FFFD. *)
Example UnmarshalJSON_oddMutation :
  UnmarshalJSON staleMutation (Some (MarshalJSON oddMutation).1)
  = (NewMutation "ports" MutateOperationDelete JNull,
     Some (ErrNotValidMutator (replacement ++ " is not a valid mutator"))).
Proof. vm_compute. reflexivity. Qed.

(** A number out of the range of float64 is refused by the decoder, in an
    array of three elements and in any other. *)
Example UnmarshalJSON_out_of_range :
  UnmarshalJSON staleMutation
    (Some (JArray [JString "a"; JString "insert"; JNumber "1e999"]))
  = (staleMutation, Some (UnmarshalTypeError "number 1e999" "float64"))
  /\ UnmarshalJSON staleMutation (Some (JArray [JNumber "1e999"]))
     = (staleMutation, Some (UnmarshalTypeError "number 1e999" "float64")).
Proof. split; vm_compute; reflexivity. Qed.

(** A value that [json.Marshal] refuses. *)
Example MarshalJSON_chan :
  MarshalJSON (NewMutation "a" MutateOperationInsert
                 (Refused "json: unsupported type: chan int"))
  = (JNull, Some (MarshalError "json: unsupported type: chan int")).
Proof. reflexivity. Qed.

(** An integer above 2^53 comes back as the float64 next to it, and an
    object with its keys sorted, the last of two equal keys kept. *)
Example UnmarshalJSON_values :
  (UnmarshalJSON staleMutation
     (Some (JArray [JString "a"; JString "%="; JNumber "9007199254740993"]))).1
  = NewMutation "a" MutateOperationModulo (JNumber "9007199254740992")
  /\ (UnmarshalJSON staleMutation
        (Some (JArray [JString "a"; JString "%=";
                       JObject [("b", JNull); ("a", JBool true); ("b", JString "x")]]))).1
     = NewMutation "a" MutateOperationModulo
         (JObject [("a", JBool true); ("b", JString "x")]).
Proof. split; vm_compute; reflexivity. Qed.

End more_examples.
